(** * Snapshot publisher ([scripts/snapshots.ts]): model and verified properties

    The script is glue over the git command line, the Node file-system API and
    three build collaborators.  It is embedded as a program in a small monad
    that threads the file system and the working directory, records every
    interaction with the outside as an event, and carries JavaScript's two
    ways of leaving early: a thrown exception and [process.exit]. *)

From Stdlib Require Import ZArith Ascii String List Lia.
From stdpp Require Import base option list strings gmap.

Open Scope string_scope.
Open Scope list_scope.

(** ** Strings of the Node runtime *)

Module Js.

(** The characters of a literal that cannot be typed inside a Rocq string. *)
Definition dquote : string := String "034"%char EmptyString.
Definition nl : string := String "010"%char EmptyString.
Definition backslash : string := String "092"%char EmptyString.

(** JavaScript truthiness of a string: only the empty string is falsy. *)
Definition truthy (s : string) : bool :=
  match s with EmptyString => false | String _ _ => true end.

(** [a || b] where [a] may be [undefined] and [b] is a string. *)
Definition or_else (a : option string) (b : string) : string :=
  match a with
  | Some s => if truthy s then s else b
  | None => b
  end.

(** [a || b] where both operands may be [undefined]. *)
Definition or_opt (a b : option string) : option string :=
  match a with
  | Some s => if truthy s then Some s else b
  | None => b
  end.

(** White space removed by [String.prototype.trim]: the code points of the
    WhiteSpace and LineTerminator productions.  A string of the model is the
    UTF-8 encoding of the JavaScript string, so such a code point takes one,
    two or three bytes:
    - one byte: U+0009 to U+000D and U+0020;
    - two bytes: U+00A0 (C2 A0);
    - three bytes: U+1680 (E1 9A 80), U+2000 to U+200A (E2 80 80 to E2 80 8A),
      U+2028 and U+2029 (E2 80 A8, E2 80 A9), U+202F (E2 80 AF),
      U+205F (E2 81 9F), U+3000 (E3 80 80) and U+FEFF (EF BB BF). *)
Definition code (c : ascii) : nat := nat_of_ascii c.

Definition is_ascii_space (c : ascii) : bool :=
  match code c with
  | 9 | 10 | 11 | 12 | 13 | 32 => true
  | _ => false
  end.

Definition two_byte_space (c1 c2 : ascii) : bool :=
  Nat.eqb (code c1) 194 && Nat.eqb (code c2) 160.

Definition three_byte_space (c1 c2 c3 : ascii) : bool :=
  (Nat.eqb (code c1) 225 && Nat.eqb (code c2) 154 && Nat.eqb (code c3) 128)
  || (Nat.eqb (code c1) 226 && Nat.eqb (code c2) 128
      && ((Nat.leb 128 (code c3) && Nat.leb (code c3) 138)
          || Nat.eqb (code c3) 168 || Nat.eqb (code c3) 169 || Nat.eqb (code c3) 175))
  || (Nat.eqb (code c1) 226 && Nat.eqb (code c2) 129 && Nat.eqb (code c3) 159)
  || (Nat.eqb (code c1) 227 && Nat.eqb (code c2) 128 && Nat.eqb (code c3) 128)
  || (Nat.eqb (code c1) 239 && Nat.eqb (code c2) 187 && Nat.eqb (code c3) 191).

(** [String.prototype.trimStart]. *)
Fixpoint trim_start (s : string) : string :=
  match s with
  | EmptyString => EmptyString
  | String c1 s1 =>
      if is_ascii_space c1 then trim_start s1
      else
        match s1 with
        | EmptyString => s
        | String c2 s2 =>
            if two_byte_space c1 c2 then trim_start s2
            else
              match s2 with
              | EmptyString => s
              | String c3 s3 =>
                  if three_byte_space c1 c2 c3 then trim_start s3 else s
              end
        end
  end.

(** Nothing but white space. *)
Definition blank (s : string) : bool :=
  match trim_start s with
  | EmptyString => true
  | String _ _ => false
  end.

(** [String.prototype.trimEnd]: the string is cut where what remains is
    nothing but white space. *)
Fixpoint trim_end (s : string) : string :=
  match s with
  | EmptyString => EmptyString
  | String c s' => if blank s then EmptyString else String c (trim_end s')
  end.

Definition trim (s : string) : string := trim_end (trim_start s).

Definition of_bytes (bytes : list nat) : string :=
  List.fold_right (fun n s => String (ascii_of_nat n) s) EmptyString bytes.

(** The UTF-8 encodings of the 25 code points that [trim] removes. *)
Definition spaces : list string :=
  List.map of_bytes
    [ [9]; [10]; [11]; [12]; [13]; [32];
      [194; 160];
      [225; 154; 128];
      [226; 128; 128]; [226; 128; 129]; [226; 128; 130]; [226; 128; 131];
      [226; 128; 132]; [226; 128; 133]; [226; 128; 134]; [226; 128; 135];
      [226; 128; 136]; [226; 128; 137]; [226; 128; 138];
      [226; 128; 168]; [226; 128; 169]; [226; 128; 175];
      [226; 129; 159];
      [227; 128; 128];
      [239; 187; 191] ].

Fixpoint join (sep : string) (l : list string) : string :=
  match l with
  | [] => EmptyString
  | [x] => x
  | x :: rest => x +:+ sep +:+ join sep rest
  end.

Definition hex_digit (n : nat) : ascii :=
  ascii_of_nat (if Nat.ltb n 10 then 48 + n else 87 + n).

(** One character of a string as [JSON.stringify] writes it. *)
Definition json_char (c : ascii) : string :=
  let n := nat_of_ascii c in
  match n with
  | 34 => backslash +:+ dquote
  | 92 => backslash +:+ backslash
  | 8 => backslash +:+ "b"
  | 9 => backslash +:+ "t"
  | 10 => backslash +:+ "n"
  | 12 => backslash +:+ "f"
  | 13 => backslash +:+ "r"
  | _ =>
      if Nat.ltb n 32
      then backslash +:+ "u00"
             +:+ String (hex_digit (n / 16)) (String (hex_digit (n mod 16)) EmptyString)
      else String c EmptyString
  end.

Fixpoint json_body (s : string) : string :=
  match s with
  | EmptyString => EmptyString
  | String c s' => json_char c +:+ json_body s'
  end.

(** [JSON.stringify] of a string value. *)
Definition stringify (s : string) : string := dquote +:+ json_body s +:+ dquote.

End Js.

(** ** Paths ([path.join], [path.basename]) and their resolution *)

Module Path.

Definition is_slash (c : ascii) : bool := Nat.eqb (nat_of_ascii c) 47.

(** The pieces of a string between slashes, empty pieces included. *)
Fixpoint pieces (s : string) : list string :=
  match s with
  | EmptyString => [EmptyString]
  | String c s' =>
      if is_slash c then EmptyString :: pieces s'
      else match pieces s' with
           | seg :: rest => String c seg :: rest
           | [] => [String c EmptyString]
           end
  end.

Definition nonempty (s : string) : bool := Js.truthy s.

Definition is_absolute (p : string) : bool :=
  match p with
  | String c _ => is_slash c
  | EmptyString => false
  end.

Fixpoint ends_with_slash (p : string) : bool :=
  match p with
  | EmptyString => false
  | String c EmptyString => is_slash c
  | String _ p' => ends_with_slash p'
  end.

(** Node's [normalizeString]: empty and [.] segments go, [..] removes the
    segment before it; above the start of a relative path it is kept.
    [acc] holds the segments kept so far, last first. *)
Fixpoint normalise (allow_above : bool) (acc : list string) (segs : list string)
  : list string :=
  match segs with
  | [] => List.rev acc
  | s :: rest =>
      if String.eqb s EmptyString then normalise allow_above acc rest
      else if String.eqb s "." then normalise allow_above acc rest
      else if String.eqb s ".." then
        match acc with
        | top :: acc' =>
            if String.eqb top ".." then normalise allow_above (s :: acc) rest
            else normalise allow_above acc' rest
        | [] =>
            if allow_above then normalise allow_above [s] rest
            else normalise allow_above [] rest
        end
      else normalise allow_above (s :: acc) rest
  end.

(** [path.normalize(p)] (POSIX). *)
Definition normalize (p : string) : string :=
  if Js.truthy p then
    let body := Js.join "/" (normalise (negb (is_absolute p)) [] (pieces p)) in
    if Js.truthy body then
      (if is_absolute p then "/" else EmptyString) +:+ body
        +:+ (if ends_with_slash p then "/" else EmptyString)
    else if is_absolute p then "/"
    else if ends_with_slash p then "./" else "."
  else ".".

(** [path.join(a, b)] (POSIX): empty operands are ignored, the rest is joined
    by a slash and normalised. *)
Definition join (a b : string) : string :=
  match List.filter nonempty [a; b] with
  | [] => "."
  | parts => normalize (Js.join "/" parts)
  end.

(** [path.basename(p)]: the last non-empty piece. *)
Definition basename (p : string) : string :=
  List.last (List.filter nonempty (pieces p)) EmptyString.

(** The absolute location a path denotes for a process whose working
    directory is [cwd]. *)
Definition resolve (cwd p : string) : list string :=
  if is_absolute p then normalise false [] (pieces p)
  else normalise false [] (pieces cwd ++ pieces p).

(** The absolute path string of a location. *)
Definition render (segs : list string) : string := "/" +:+ Js.join "/" segs.

End Path.

(** ** The file system seen through Node's [fs] module *)

Module Fs.

#[warnings="-register-all"]
Inductive node :=
| File (content : string)
| Dir (entries : list (string * node)).

Fixpoint assoc {A} (k : string) (l : list (string * A)) : option A :=
  match l with
  | [] => None
  | (k', v) :: rest => if String.eqb k k' then Some v else assoc k rest
  end.

(** Replace the entry of [k] where it stands, or add it at the end. *)
Fixpoint set_assoc {A} (k : string) (v : A) (l : list (string * A)) : list (string * A) :=
  match l with
  | [] => [(k, v)]
  | (k', v') :: rest =>
      if String.eqb k k' then (k, v) :: rest else (k', v') :: set_assoc k v rest
  end.

Fixpoint lookup (n : node) (p : list string) : option node :=
  match p with
  | [] => Some n
  | s :: p' =>
      match n with
      | Dir es => match assoc s es with Some c => lookup c p' | None => None end
      | File _ => None
      end
  end.

(** Install [new] at location [p]; every proper ancestor of [p] has to be an
    existing directory, as for [open(2)] and [mkdir(2)]. *)
Fixpoint put (n : node) (p : list string) (new : node) : option node :=
  match p with
  | [] => Some new
  | s :: p' =>
      match n with
      | Dir es =>
          match p' with
          | [] => Some (Dir (set_assoc s new es))
          | _ :: _ =>
              match assoc s es with
              | Some c =>
                  match put c p' new with
                  | Some c' => Some (Dir (set_assoc s c' es))
                  | None => None
                  end
              | None => None
              end
          end
      | File _ => None
      end
  end.

End Fs.

(** ** Data model *)

(** [PackageInfo] of [lib/packages]: the attributes the publisher reads. *)
Record PackageInfo := {
  name : string;
  dist : string;
  snapshot : bool;
  snapshotRepo : string;
  snapshotHash : string;
}.

(** [SnapshotsOptions]: every field is optional. *)
Record SnapshotsOptions := {
  force : option bool;
  githubToken : option string;
  branch : option string;
}.

(** Values a JavaScript [throw] carries in this script. *)
Inductive js_error :=
| Undefined                      (* [throw error] when [spawnSync] reported none *)
| SystemError (code : string)    (* an errno raised by [fs] or [process] *)
| RangeError                     (* the call stack is exhausted *)
| TypeError
| ExternalError (msg : string).  (* raised by a child process or a collaborator *)

(** How a computation ends: normally, by an exception, or by [process.exit]. *)
Inductive outcome (A : Type) :=
| Returned (a : A)
| Thrown (e : js_error)
| Exited (code : Z).
Arguments Returned {A} a.
Arguments Thrown {A} e.
Arguments Exited {A} code.

Inductive level := Debug | Info | Warn | Error.

(** A logger is known by the names of the [createChild] calls that made it. *)
Definition logger := list string.
Definition createChild (lg : logger) (child : string) : logger := lg ++ [child].

(** What [spawnSync] hands back: [status] is [null] when the child could not be
    started or was killed. *)
Record SpawnResult := {
  status : option Z;
  error : option js_error;
  stdout : string;
}.

(** Every interaction with the outside, with what came back. *)
Inductive event :=
| EvExecSync (cmd : string) (res : option string)
| EvSpawn (command : string) (args : list string) (cwd : option string) (st : option Z)
| EvLog (lg : logger) (lvl : level) (msg : string)
| EvMkdtemp (prefix : string) (res : option string)
| EvChdir (dir : string) (ok : bool)
| EvReaddir (p : string) (res : option (list string))
| EvStat (p : string) (isdir : option bool)
| EvExists (p : string) (res : bool)
| EvMkdir (p : string) (ok : bool)
| EvReadFile (p : string) (res : option string)
| EvWriteFile (p : string) (content : string) (ok : bool)
| EvDate (t : Z)
| EvCreateTemporaryProject (res : option string)
| EvBuild (snapshot_mode : bool) (ok : bool)
| EvJsonHelp (temporaryProjectRoot : string) (ok : bool).

(** The part of the machine the script can observe and change, together with
    the history of the run so far. *)
Record World := {
  fs : Fs.node;
  cwd : string;
  hist : list event;
}.

(** What an in-process collaborator leaves behind. *)
Record Effect (A : Type) := {
  eff_out : outcome A;
  eff_fs : Fs.node;
  eff_cwd : string;
}.
Arguments eff_out {A} _.
Arguments eff_fs {A} _.
Arguments eff_cwd {A} _.

(** The surroundings of one invocation.  Child processes, the clock and the
    three collaborators are outside the script: each is a function of the
    world at the moment of the call, history included, so no assumption is
    made on what git or the build do. *)
Record Env := {
  env : gmap string string;                  (* [process.env] *)
  tmpdir : string;                           (* [os.tmpdir()] *)
  packages : list (string * PackageInfo);    (* the table of [lib/packages] *)
  stack_depth : nat;                         (* nested calls the stack still admits *)
  spawnSync : World -> string -> list string -> option string -> SpawnResult * Fs.node;
  execSync : World -> string -> (string + js_error) * Fs.node;
  mkdtempSync : World -> string -> (string + js_error) * Fs.node;
  clock : World -> Z;                        (* [new Date()], in milliseconds *)
  date_string : Z -> string;                 (* [Date.prototype.toString] *)
  createTemporaryProject : World -> logger -> Effect string;
  build : World -> bool -> logger -> Effect unit;
  jsonHelp : World -> string -> logger -> Effect unit;
}.

(** ** The monad of the script *)

Record Res (A : Type) := {
  emitted : list event;
  fs_after : Fs.node;
  cwd_after : string;
  out : outcome A;
}.
Arguments emitted {A} _.
Arguments fs_after {A} _.
Arguments cwd_after {A} _.
Arguments out {A} _.

Definition M (A : Type) : Type := Env -> World -> Res A.

(** The world a computation leaves for what follows it. *)
Definition advance {A} (w : World) (r : Res A) : World :=
  {| fs := fs_after r; cwd := cwd_after r; hist := hist w ++ emitted r |}.

Definition ret {A} (a : A) : M A := fun _ w =>
  {| emitted := []; fs_after := fs w; cwd_after := cwd w; out := Returned a |}.

Definition bind {A B} (m : M A) (k : A -> M B) : M B := fun E w =>
  let r := m E w in
  match out r with
  | Returned a =>
      let r' := k a E (advance w r) in
      {| emitted := emitted r ++ emitted r'; fs_after := fs_after r';
         cwd_after := cwd_after r'; out := out r' |}
  | Thrown e =>
      {| emitted := emitted r; fs_after := fs_after r; cwd_after := cwd_after r;
         out := Thrown e |}
  | Exited c =>
      {| emitted := emitted r; fs_after := fs_after r; cwd_after := cwd_after r;
         out := Exited c |}
  end.

(** [try { m } catch { h }]: an exception is caught, [process.exit] is not. *)
Definition try_catch {A} (m : M A) (h : M A) : M A := fun E w =>
  let r := m E w in
  match out r with
  | Thrown _ =>
      let r' := h E (advance w r) in
      {| emitted := emitted r ++ emitted r'; fs_after := fs_after r';
         cwd_after := cwd_after r'; out := out r' |}
  | _ => r
  end.

Definition throw {A} (e : js_error) : M A := fun _ w =>
  {| emitted := []; fs_after := fs w; cwd_after := cwd w; out := Thrown e |}.

Definition process_exit {A} (code : Z) : M A := fun _ w =>
  {| emitted := []; fs_after := fs w; cwd_after := cwd w; out := Exited code |}.

Definition emit (ev : event) : M unit := fun _ w =>
  {| emitted := [ev]; fs_after := fs w; cwd_after := cwd w; out := Returned tt |}.

Definition ask : M Env := fun E w =>
  {| emitted := []; fs_after := fs w; cwd_after := cwd w; out := Returned E |}.

Definition process_cwd : M string := fun _ w =>
  {| emitted := []; fs_after := fs w; cwd_after := cwd w; out := Returned (cwd w) |}.

Declare Scope js_scope.
Delimit Scope js_scope with js.
Notation "x <- m ;; k" := (bind m (fun x => k))
  (at level 100, m at next level, right associativity) : js_scope.
Notation "m ;; k" := (bind m (fun _ => k))
  (at level 100, right associativity) : js_scope.
Open Scope js_scope.

(** [list.forEach(body)] and [for (const x of list) body]. *)
Fixpoint forEach {A} (l : list A) (body : A -> M unit) : M unit :=
  match l with
  | [] => ret tt
  | x :: rest => body x ;; forEach rest body
  end.

(** ** Primitives: child processes, [fs], [process], the clock, the collaborators *)

Definition mkRes {A} (evs : list event) (f : Fs.node) (d : string) (o : outcome A) : Res A :=
  {| emitted := evs; fs_after := f; cwd_after := d; out := o |}.

(** [spawnSync(command, args, {stdio, ...opts})]. *)
Definition spawn (command : string) (args : list string) (opts_cwd : option string)
  : M SpawnResult := fun E w =>
  let r := spawnSync E w command args opts_cwd in
  mkRes [EvSpawn command args opts_cwd (status r.1)] r.2 (cwd w) (Returned r.1).

(** [execSync(cmd).toString()]: throws when the command fails. *)
Definition exec_sync (cmd : string) : M string := fun E w =>
  let r := execSync E w cmd in
  match r.1 with
  | inl text => mkRes [EvExecSync cmd (Some text)] r.2 (cwd w) (Returned text)
  | inr e => mkRes [EvExecSync cmd None] r.2 (cwd w) (Thrown e)
  end.

(** [fs.mkdtempSync(prefix)]. *)
Definition mkdtemp (prefix : string) : M string := fun E w =>
  let r := mkdtempSync E w prefix in
  match r.1 with
  | inl dir => mkRes [EvMkdtemp prefix (Some dir)] r.2 (cwd w) (Returned dir)
  | inr e => mkRes [EvMkdtemp prefix None] r.2 (cwd w) (Thrown e)
  end.

(** [process.chdir(dir)]. *)
Definition chdir (dir : string) : M unit := fun _ w =>
  let loc := Path.resolve (cwd w) dir in
  match Fs.lookup (fs w) loc with
  | Some (Fs.Dir _) => mkRes [EvChdir dir true] (fs w) (Path.render loc) (Returned tt)
  | Some (Fs.File _) => mkRes [EvChdir dir false] (fs w) (cwd w) (Thrown (SystemError "ENOTDIR"))
  | None => mkRes [EvChdir dir false] (fs w) (cwd w) (Thrown (SystemError "ENOENT"))
  end.

Definition readdirSync (p : string) : M (list string) := fun _ w =>
  match Fs.lookup (fs w) (Path.resolve (cwd w) p) with
  | Some (Fs.Dir es) =>
      mkRes [EvReaddir p (Some (List.map fst es))] (fs w) (cwd w) (Returned (List.map fst es))
  | Some (Fs.File _) => mkRes [EvReaddir p None] (fs w) (cwd w) (Thrown (SystemError "ENOTDIR"))
  | None => mkRes [EvReaddir p None] (fs w) (cwd w) (Thrown (SystemError "ENOENT"))
  end.

(** [fs.statSync(p).isDirectory()]. *)
Definition statSync_isDirectory (p : string) : M bool := fun _ w =>
  match Fs.lookup (fs w) (Path.resolve (cwd w) p) with
  | Some (Fs.Dir _) => mkRes [EvStat p (Some true)] (fs w) (cwd w) (Returned true)
  | Some (Fs.File _) => mkRes [EvStat p (Some false)] (fs w) (cwd w) (Returned false)
  | None => mkRes [EvStat p None] (fs w) (cwd w) (Thrown (SystemError "ENOENT"))
  end.

Definition existsSync (p : string) : M bool := fun _ w =>
  let b := match Fs.lookup (fs w) (Path.resolve (cwd w) p) with
           | Some _ => true
           | None => false
           end in
  mkRes [EvExists p b] (fs w) (cwd w) (Returned b).

Definition mkdirSync (p : string) : M unit := fun _ w =>
  let loc := Path.resolve (cwd w) p in
  match Fs.lookup (fs w) loc with
  | Some _ => mkRes [EvMkdir p false] (fs w) (cwd w) (Thrown (SystemError "EEXIST"))
  | None =>
      match Fs.put (fs w) loc (Fs.Dir []) with
      | Some f => mkRes [EvMkdir p true] f (cwd w) (Returned tt)
      | None => mkRes [EvMkdir p false] (fs w) (cwd w) (Thrown (SystemError "ENOENT"))
      end
  end.

Definition readFileSync (p : string) : M string := fun _ w =>
  match Fs.lookup (fs w) (Path.resolve (cwd w) p) with
  | Some (Fs.File c) => mkRes [EvReadFile p (Some c)] (fs w) (cwd w) (Returned c)
  | Some (Fs.Dir _) => mkRes [EvReadFile p None] (fs w) (cwd w) (Thrown (SystemError "EISDIR"))
  | None => mkRes [EvReadFile p None] (fs w) (cwd w) (Thrown (SystemError "ENOENT"))
  end.

Definition writeFileSync (p : string) (content : string) : M unit := fun _ w =>
  let loc := Path.resolve (cwd w) p in
  match Fs.lookup (fs w) loc with
  | Some (Fs.Dir _) =>
      mkRes [EvWriteFile p content false] (fs w) (cwd w) (Thrown (SystemError "EISDIR"))
  | _ =>
      match Fs.put (fs w) loc (Fs.File content) with
      | Some f => mkRes [EvWriteFile p content true] f (cwd w) (Returned tt)
      | None =>
          mkRes [EvWriteFile p content false] (fs w) (cwd w) (Thrown (SystemError "ENOENT"))
      end
  end.

(** ['' + new Date()]. *)
Definition date_now : M string := fun E w =>
  mkRes [EvDate (clock E w)] (fs w) (cwd w) (Returned (date_string E (clock E w))).

Definition ok_of {A} (o : outcome A) : bool :=
  match o with Returned _ => true | _ => false end.

Definition call_createTemporaryProject (lg : logger) : M string := fun E w =>
  let r := createTemporaryProject E w lg in
  mkRes [EvCreateTemporaryProject
           match eff_out r with Returned d => Some d | _ => None end]
    (eff_fs r) (eff_cwd r) (eff_out r).

Definition call_build (snapshot_mode : bool) (lg : logger) : M unit := fun E w =>
  let r := build E w snapshot_mode lg in
  mkRes [EvBuild snapshot_mode (ok_of (eff_out r))] (eff_fs r) (eff_cwd r) (eff_out r).

Definition call_jsonHelp (temporaryProjectRoot : string) (lg : logger) : M unit := fun E w =>
  let r := jsonHelp E w temporaryProjectRoot lg in
  mkRes [EvJsonHelp temporaryProjectRoot (ok_of (eff_out r))] (eff_fs r) (eff_cwd r) (eff_out r).

Definition log (lg : logger) (lvl : level) (msg : string) : M unit := emit (EvLog lg lvl msg).

(** ** The script *)

(** [readmeHeaderFn]: the markdown block put in front of a snapshot's README. *)
Definition readmeHeaderFn (pkg : PackageInfo) : string :=
  Js.join Js.nl
    [ EmptyString;
      "# Snapshot build of " +:+ name pkg;
      EmptyString;
      "This repository is a snapshot of a commit on the original repository. The original code used to";
      "generate this is located at http://github.com/angular/angular-cli.";
      EmptyString;
      "We do not accept PRs or Issues opened on this repository. You should not use this over a tested and";
      "released version of this package.";
      EmptyString;
      "To test this snapshot in your own project, use";
      EmptyString;
      "```bash";
      "npm install git+https://github.com/" +:+ snapshotRepo pkg +:+ ".git";
      "```";
      EmptyString;
      "----";
      EmptyString ].

(** [_copy(from, to)].  [depth] is the number of nested calls the JavaScript
    stack still admits; a call beyond it raises [RangeError] as in Node. *)
Fixpoint _copy (depth : nat) (from to : string) {struct depth} : M unit :=
  names <- readdirSync from ;;
  forEach names (fun name =>
    let fromPath := Path.join from name in
    let toPath := Path.join to name in
    isdir <- statSync_isDirectory fromPath ;;
    if isdir then
      present <- existsSync toPath ;;
      (if negb present then mkdirSync toPath else ret tt) ;;
      match depth with
      | 0 => throw RangeError
      | S d => _copy d fromPath toPath
      end
    else
      content <- readFileSync fromPath ;;
      writeFileSync toPath content).

(** [status != 0]: [null] is not loosely equal to [0]. *)
Definition status_ne_0 (st : option Z) : bool :=
  match st with
  | Some 0%Z => false
  | _ => true
  end.

Definition command_failed (command : string) (args : list string) : string :=
  "Command failed: " +:+ command +:+ " " +:+ Js.join ", " (List.map Js.stringify args).

(** [_exec(command, args, opts, logger)]. *)
Definition _exec (command : string) (args : list string) (opts_cwd : option string)
    (lg : logger) : M string :=
  r <- spawn command args opts_cwd ;;
  if status_ne_0 (status r) then
    log lg Error (command_failed command args) ;;
    throw (default Undefined (error r))
  else ret (stdout r).

Definition clone_url (githubToken : string) (pkg : PackageInfo) : string :=
  "https://" +:+ (if Js.truthy githubToken then githubToken +:+ "@" else EmptyString)
    +:+ "github.com/" +:+ snapshotRepo pkg +:+ ".git".

(** [_publishSnapshot(pkg, branch, message, logger, githubToken)]. *)
Definition _publishSnapshot (pkg : PackageInfo) (branch message : string) (lg : logger)
    (githubToken : string) : M unit :=
  if negb (snapshot pkg) then
    log lg Warn ("Skipping " +:+ name pkg +:+ ".")
  else
    log lg Info ("Publishing " +:+ name pkg +:+ " to repo "
                   +:+ Js.stringify (snapshotRepo pkg) +:+ ".") ;;
    root <- process_cwd ;;
    let publishLogger := createChild lg "publish" in
    log publishLogger Debug ("Temporary directory: " +:+ root) ;;
    let url := clone_url githubToken pkg in
    let destPath := Path.join root (Path.basename (snapshotRepo pkg)) in
    _exec "git" ["clone"; url] (Some root) publishLogger ;;
    (if Js.truthy branch then
       try_catch
         (_exec "git" ["checkout"; branch] (Some destPath) publishLogger ;; ret tt)
         (_exec "git" ["checkout"; "-b"; branch] (Some destPath) publishLogger ;; ret tt)
     else ret tt) ;;
    try_catch
      (_exec "git" ["rm"; "-rf"; "./"] (Some destPath) publishLogger ;; ret tt)
      (ret tt) ;;
    E <- ask ;;
    _copy (stack_depth E) (dist pkg) destPath ;;
    (if Js.truthy githubToken then
       _exec "git" ["config"; "commit.gpgSign"; "false"] (Some destPath) publishLogger ;;
       ret tt
     else ret tt) ;;
    let readmePath := Path.join destPath "README.md" in
    readme <- try_catch
                (old <- readFileSync readmePath ;; ret (readmeHeaderFn pkg +:+ old))
                (ret (readmeHeaderFn pkg)) ;;
    writeFileSync readmePath readme ;;
    stamp <- date_now ;;
    writeFileSync (Path.join destPath "uniqueId") stamp ;;
    _exec "git" ["add"; "."] (Some destPath) publishLogger ;;
    _exec "git" ["commit"; "-a"; "-m"; message] (Some destPath) publishLogger ;;
    _exec "git" ["tag"; snapshotHash pkg] (Some destPath) publishLogger ;;
    _exec "git" ["push"; "origin"; branch] (Some destPath) publishLogger ;;
    _exec "git" ["push"; "--tags"; "origin"; branch] (Some destPath) publishLogger ;;
    ret tt.

Definition git_status_cmd : string := "git status --porcelain".
Definition git_log_cmd : string :=
  "git log --format=" +:+ Js.dquote +:+ "%h %s" +:+ Js.dquote +:+ " -n1".

(** [let branch = opts.branch || 'main'], then the [CIRCLE_BRANCH] override. *)
Definition resolve_branch (opts : SnapshotsOptions) (vars : gmap string string) : string :=
  let branch := Js.or_else (branch opts) "main" in
  match vars !! "CIRCLE_BRANCH" with
  | Some ci => ci
  | None => branch
  end.

(** [(opts.githubToken || process.env.SNAPSHOT_BUILDS_GITHUB_TOKEN || '').trim()]. *)
Definition resolve_token (opts : SnapshotsOptions) (vars : gmap string string) : string :=
  Js.trim
    (Js.or_else (Js.or_opt (githubToken opts) (vars !! "SNAPSHOT_BUILDS_GITHUB_TOKEN"))
       EmptyString).

(** The loop over [Object.keys(packages)]. *)
Definition publish_all (root branch message : string) (lg : logger) (githubToken : string)
    (table : list (string * PackageInfo)) (keys : list string) : M unit :=
  forEach keys (fun packageName =>
    chdir root ;;
    match Fs.assoc packageName table with
    | Some pkg => _publishSnapshot pkg branch message lg githubToken
    | None => throw TypeError
    end).

(** The default export of [scripts/snapshots.ts]. *)
Definition snapshots (opts : SnapshotsOptions) (lg : logger) : M Z :=
  E <- ask ;;
  changes <- exec_sync git_status_cmd ;;
  (if Js.truthy changes && negb (default false (force opts)) then
     log lg Error "You cannot run snapshots with local changes." ;;
     process_exit 1%Z
   else ret tt) ;;
  root <- mkdtemp (Path.join (tmpdir E) "angular-cli-publish-") ;;
  logged <- exec_sync git_log_cmd ;;
  let message := Js.trim logged in
  let branch := resolve_branch opts (env E) in
  let githubToken := resolve_token opts (env E) in
  (if Js.truthy githubToken then
     log lg Info "Setting up global git name." ;;
     _exec "git" ["config"; "--global"; "user.email"; "circleci@angular.io"] None lg ;;
     _exec "git" ["config"; "--global"; "user.name"; "Angular Builds"] None lg ;;
     _exec "git" ["config"; "--global"; "push.default"; "simple"] None lg ;;
     ret tt
   else ret tt) ;;
  temporaryProjectRoot <- call_createTemporaryProject lg ;;
  log lg Info "Building..." ;;
  call_build true (createChild lg "build") ;;
  call_jsonHelp temporaryProjectRoot lg ;;
  if negb (Js.truthy githubToken) then
    log lg Info "No token given, skipping actual publishing..." ;;
    ret 0%Z
  else
    publish_all root branch message lg githubToken (packages E) (List.map fst (packages E)) ;;
    ret 0%Z.

(** ** A concrete machine

    A small but complete surrounding on which the script can be run by
    evaluation: a file system with one built package, a git that answers by
    the arguments it is given, a clock, and collaborators that succeed. *)

Module Demo.

Definition core : PackageInfo :=
  {| name := "core"; dist := "/dist/core"; snapshot := true;
     snapshotRepo := "org/core-builds"; snapshotHash := "abc123" |}.

Definition docs : PackageInfo :=
  {| name := "docs"; dist := "/dist/docs"; snapshot := false;
     snapshotRepo := "org/docs-builds"; snapshotHash := "abc123" |}.

Definition table : list (string * PackageInfo) := [("docs", docs); ("core", core)].

(** Built output of [core]; [with_readme] tells whether it ships a README. *)
Definition core_dist (with_readme : bool) : Fs.node :=
  Fs.Dir ([("index.js", Fs.File "exports.core = 1;");
           ("lib", Fs.Dir [("util.js", Fs.File "exports.util = 2;")])]
          ++ if with_readme then [("README.md", Fs.File "core docs")] else []).

Definition disk (with_readme : bool) : Fs.node :=
  Fs.Dir [("tmp", Fs.Dir []);
          ("dist", Fs.Dir [("core", core_dist with_readme)])].

Definition start (with_readme : bool) : World :=
  {| fs := disk with_readme; cwd := "/repo"; hist := [] |}.

(** The same disk seen from the temporary directory. *)
Definition in_tmp (with_readme : bool) : World :=
  {| fs := disk with_readme; cwd := "/tmp"; hist := [] |}.

Definition succeeded : SpawnResult :=
  {| status := Some 0%Z; error := None; stdout := EmptyString |}.
Definition failed : SpawnResult :=
  {| status := Some 1%Z; error := None; stdout := EmptyString |}.

Definition put_or_keep (f : Fs.node) (loc : list string) (n : Fs.node) : Fs.node :=
  default f (Fs.put f loc n).

(** git: [fails] picks the argument lists that exit with status 1; a clone
    leaves [mirror] in [core-builds] under the directory it runs in, a
    successful [rm -rf ./] leaves the directory it runs in empty. *)
Definition git (fails : list string -> bool) (mirror : Fs.node)
    (w : World) (command : string) (args : list string) (opts_cwd : option string)
  : SpawnResult * Fs.node :=
  let here := Path.resolve (cwd w) (default (cwd w) opts_cwd) in
  if fails args then (failed, fs w)
  else match args with
       | "clone" :: _ => (succeeded, put_or_keep (fs w) (here ++ ["core-builds"]) mirror)
       | "rm" :: _ => (succeeded, put_or_keep (fs w) here (Fs.Dir []))
       | _ => (succeeded, fs w)
       end.

Definition shell (changes : string) (w : World) (cmd : string)
  : (string + js_error) * Fs.node :=
  if String.eqb cmd git_status_cmd then (inl changes, fs w)
  else if String.eqb cmd git_log_cmd then (inl ("1a2b3c4 fix: a thing" +:+ Js.nl), fs w)
  else (inl EmptyString, fs w).

Definition tempdir (w : World) (prefix : string) : (string + js_error) * Fs.node :=
  let dir := prefix +:+ "Xy12ab" in
  (inl dir, put_or_keep (fs w) (Path.resolve (cwd w) dir) (Fs.Dir [])).

Definition returns {A} (a : A) (w : World) : Effect A :=
  {| eff_out := Returned a; eff_fs := fs w; eff_cwd := cwd w |}.

(** A clock that ticks a second per event when [ticking], and stands still
    otherwise; dates print with the resolution of a second. *)
Definition time (ticking : bool) (w : World) : Z :=
  if ticking then 1000 * Z.of_nat (List.length (hist w)) else 0.

Definition show_date (t : Z) : string :=
  "second " +:+ String (ascii_of_nat (48 + Z.to_nat ((t / 1000) mod 10))) EmptyString.

Definition machine (vars : gmap string string) (changes : string)
    (fails : list string -> bool) (mirror : Fs.node) (ticking : bool) : Env :=
  {| env := vars;
     tmpdir := "/tmp";
     packages := table;
     stack_depth := 8;
     spawnSync := git fails mirror;
     execSync := shell changes;
     mkdtempSync := tempdir;
     clock := time ticking;
     date_string := show_date;
     createTemporaryProject := fun w _ => returns "/tmp/project" w;
     build := fun w _ _ => returns tt w;
     jsonHelp := fun w _ _ => returns tt w |}.

Definition never (args : list string) : bool := false.

Definition args_are (expected : list string) (args : list string) : bool :=
  bool_decide (args = expected).

Definition empty_mirror : Fs.node := Fs.Dir [].
Definition mirror_with (readme : string) : Fs.node := Fs.Dir [("README.md", Fs.File readme)].

Definition no_options : SnapshotsOptions :=
  {| force := None; githubToken := None; branch := None |}.
Definition with_token (t : string) : SnapshotsOptions :=
  {| force := None; githubToken := Some t; branch := None |}.

Definition no_vars : gmap string string := ∅.

(** Where the clone of [core] lives during a run, and two of its files. *)
Definition clone_at : list string := ["tmp"; "angular-cli-publish-Xy12ab"; "core-builds"].

Definition file_in_clone {A} (r : Res A) (file : string) : option Fs.node :=
  Fs.lookup (fs_after r) (clone_at ++ [file]).

(** A complete run that publishes to [mirror]; the clock stands still. *)
Definition publish_to (mirror : Fs.node) : Res Z :=
  snapshots (with_token "tok") [] (machine no_vars EmptyString never mirror false)
    (start true).

(** What the mirror holds once the run [r] has pushed its clone. *)
Definition pushed {A} (r : Res A) : Fs.node :=
  default empty_mirror (Fs.lookup (fs_after r) clone_at).

End Demo.

(** ** Vocabulary of the statements *)

(** [emits E P m]: whatever the world, [m] only produces events in [P]. *)
Definition emits {A} (E : Env) (P : event -> Prop) (m : M A) : Prop :=
  forall w, Forall P (emitted (m E w)).

(** Events of the [fs] module. *)
Definition is_fs_event (ev : event) : Prop :=
  match ev with
  | EvReaddir _ _ | EvStat _ _ | EvExists _ _ | EvMkdir _ _
  | EvReadFile _ _ | EvWriteFile _ _ _ => True
  | _ => False
  end.

(** A child process started through [_exec]. *)
Definition is_spawn (ev : event) : Prop :=
  match ev with
  | EvSpawn _ _ _ _ => True
  | _ => False
  end.

(** The git sub-command of a spawn event. *)
Definition verb_of (ev : event) : option string :=
  match ev with
  | EvSpawn _ (verb :: _) _ _ => Some verb
  | _ => None
  end.

(** Every checkout and every push of the event names branch [b]. *)
Definition branch_args (b : string) (ev : event) : Prop :=
  match ev with
  | EvSpawn _ (verb :: rest) _ _ =>
      (verb = "checkout" -> rest = [b] \/ rest = ["-b"; b])
      /\ (verb = "push" -> rest = ["origin"; b] \/ rest = ["--tags"; "origin"; b])
  | _ => True
  end.

(** [evs] in front of what [r] emitted. *)
Definition prepend {A} (evs : list event) (r : Res A) : Res A :=
  mkRes (evs ++ emitted r) (fs_after r) (cwd_after r) (out r).

Definition is_thrown {A} (o : outcome A) : Prop :=
  match o with
  | Thrown _ => True
  | _ => False
  end.

(** The shell commands, the temporary directory and the three collaborators
    do not fail. *)
Definition cooperative (E : Env) : Prop :=
  (forall w cmd, exists text, (execSync E w cmd).1 = inl text)
  /\ (forall w prefix, exists dir, (mkdtempSync E w prefix).1 = inl dir)
  /\ (forall w lg, exists dir, eff_out (createTemporaryProject E w lg) = Returned dir)
  /\ (forall w mode lg, eff_out (build E w mode lg) = Returned tt)
  /\ (forall w dir lg, eff_out (jsonHelp E w dir lg) = Returned tt).

(** The working tree is clean, or [force] is set. *)
Definition passes_precondition (E : Env) (w : World) (opts : SnapshotsOptions) : Prop :=
  (execSync E w git_status_cmd).1 = inl EmptyString \/ force opts = Some true.

(** All that a run without credential does. *)
Definition dry_run_trace (E : Env) (lg : logger) (changes root logged project : string)
  : list event :=
  [ EvExecSync git_status_cmd (Some changes);
    EvMkdtemp (Path.join (tmpdir E) "angular-cli-publish-") (Some root);
    EvExecSync git_log_cmd (Some logged);
    EvCreateTemporaryProject (Some project);
    EvLog lg Info "Building...";
    EvBuild true true;
    EvJsonHelp project true;
    EvLog lg Info "No token given, skipping actual publishing..." ].

(** The last five commands of the per-package sequence, all successful, run
    in the clone [dest]. *)
Definition final_steps (pkg : PackageInfo) (b msg dest : string) : list event :=
  [ EvSpawn "git" ["add"; "."] (Some dest) (Some 0%Z);
    EvSpawn "git" ["commit"; "-a"; "-m"; msg] (Some dest) (Some 0%Z);
    EvSpawn "git" ["tag"; snapshotHash pkg] (Some dest) (Some 0%Z);
    EvSpawn "git" ["push"; "origin"; b] (Some dest) (Some 0%Z);
    EvSpawn "git" ["push"; "--tags"; "origin"; b] (Some dest) (Some 0%Z) ].

Definition final_verb (v : string) : bool :=
  existsb (String.eqb v) ["add"; "commit"; "tag"; "push"].

(** A git add, commit, tag or push. *)
Definition is_final_step (ev : event) : Prop :=
  match verb_of ev with
  | Some v => final_verb v = true
  | None => False
  end.

(** The README and the uniqueness marker of one run: what was read from
    [README.md] in the clone [dest], what was written back, the clock reading
    and the marker written. *)
Definition readme_block (E : Env) (pkg : PackageInfo) (dest : string)
    (old : option string) (t : Z) : list event :=
  [ EvReadFile (Path.join dest "README.md") old;
    EvWriteFile (Path.join dest "README.md")
      match old with
      | Some content => readmeHeaderFn pkg +:+ content
      | None => readmeHeaderFn pkg
      end true;
    EvDate t;
    EvWriteFile (Path.join dest "uniqueId") (date_string E t) true ].

(** [rest] begins with the removal of tracked files in [dest], and holds no
    checkout after it. *)
Definition starts_with_removal (dest : string) (rest : list event) : Prop :=
  exists st more,
    rest = EvSpawn "git" ["rm"; "-rf"; "./"] (Some dest) st :: more
    /\ Forall (fun ev => verb_of ev <> Some "checkout") more.

(** The two commands whose failure the per-package sequence catches. *)
Definition tolerated (b : string) (args : list string) : Prop :=
  args = ["rm"; "-rf"; "./"] \/ args = ["checkout"; b].

(** A failed step of the [fs] module other than a read of a file. *)
Definition fs_failure (ev : event) : Prop :=
  match ev with
  | EvReaddir _ None | EvStat _ None | EvMkdir _ false | EvWriteFile _ _ false => True
  | _ => False
  end.

(** A failure that is not caught: a child process that exits with a status
    other than 0 on a command that is not tolerated, or a failed [fs] step. *)
Definition fatal (tol : list string -> Prop) (ev : event) : Prop :=
  match ev with
  | EvSpawn _ args _ st => status_ne_0 st = true /\ ~ tol args
  | _ => fs_failure ev
  end.

(** After a child process that failed comes the log of its command line. *)
Definition failure_logged (ev : event) (post : list event) : Prop :=
  match ev with
  | EvSpawn c args _ st =>
      status_ne_0 st = true ->
      exists lg post', post = EvLog lg Error (command_failed c args) :: post'
  | _ => True
  end.

(** Nothing comes after [ev] but, for a child process, the log of its
    command line. *)
Definition ends_run (ev : event) (post : list event) : Prop :=
  match ev with
  | EvSpawn c args _ _ => exists lg, post = [EvLog lg Error (command_failed c args)]
  | _ => post = []
  end.

(** The failure discipline of a run: every failed child process is followed
    by the log of its command; a failure that is not caught is the last
    thing the run did, and the run ended with an exception. *)
Definition fail_stop {A} (tol : list string -> Prop) (r : Res A) : Prop :=
  forall pre ev post,
    emitted r = pre ++ ev :: post ->
    failure_logged ev post /\ (fatal tol ev -> ends_run ev post /\ is_thrown (out r)).

(** [stops E tol m]: [m] keeps the failure discipline in every world. *)
Definition stops {A} (E : Env) (tol : list string -> Prop) (m : M A) : Prop :=
  forall w, fail_stop tol (m E w).

(** A failed child process or a failed [fs] step. *)
Definition is_failure (ev : event) : Prop :=
  match ev with
  | EvSpawn _ _ _ st => status_ne_0 st = true
  | _ => fs_failure ev
  end.

(** In [evs] every event in [T] comes right after an event that stands in
    relation [N] to it. *)
Definition preceded (T : event -> Prop) (N : event -> event -> Prop)
    (evs : list event) : Prop :=
  forall pre ev post,
    evs = pre ++ ev :: post -> T ev ->
    exists pre' prev, pre = pre' ++ [prev] /\ N prev ev.

(** [follows E T N m]: in every world the trace of [m] is [preceded T N]. *)
Definition follows {A} (E : Env) (T : event -> Prop) (N : event -> event -> Prop)
    (m : M A) : Prop :=
  forall w, preceded T N (emitted (m E w)).

Definition is_write (ev : event) : Prop :=
  match ev with
  | EvWriteFile _ _ _ => True
  | _ => False
  end.

Definition is_mkdir (ev : event) : Prop :=
  match ev with
  | EvMkdir _ _ => True
  | _ => False
  end.

(** The path reached from [base] through the entries of [chain]. *)
Definition under (base : string) (chain : list string) : string :=
  fold_left Path.join chain base.

(** [prev] is the successful read of the file that [ev] writes: the same
    chain of entries under [from] and under [to], and the same content. *)
Definition read_then_written (from to : string) (prev ev : event) : Prop :=
  exists chain content ok,
    chain <> []
    /\ prev = EvReadFile (under from chain) (Some content)
    /\ ev = EvWriteFile (under to chain) content ok.

(** [prev] is the test that found the directory of [ev] missing. *)
Definition found_missing (prev ev : event) : Prop :=
  exists p ok, prev = EvExists p false /\ ev = EvMkdir p ok.

(** What a run with a credential does before it turns to the packages. *)
Definition setup_trace (E : Env) (lg : logger) (changes root logged project : string)
  : list event :=
  [ EvExecSync git_status_cmd (Some changes);
    EvMkdtemp (Path.join (tmpdir E) "angular-cli-publish-") (Some root);
    EvExecSync git_log_cmd (Some logged);
    EvLog lg Info "Setting up global git name.";
    EvSpawn "git" ["config"; "--global"; "user.email"; "circleci@angular.io"] None
      (Some 0%Z);
    EvSpawn "git" ["config"; "--global"; "user.name"; "Angular Builds"] None (Some 0%Z);
    EvSpawn "git" ["config"; "--global"; "push.default"; "simple"] None (Some 0%Z);
    EvCreateTemporaryProject (Some project);
    EvLog lg Info "Building...";
    EvBuild true true;
    EvJsonHelp project true ].

(** The steps of the run that come before the packages: shell queries, the
    temporary directory, the collaborators, the global git configuration. *)
Definition is_setup_event (ev : event) : Prop :=
  match ev with
  | EvExecSync _ _ | EvMkdtemp _ _ | EvCreateTemporaryProject _ | EvBuild _ _
  | EvJsonHelp _ _ => True
  | EvSpawn _ _ None _ => True
  | _ => False
  end.

(** A clone names the mirror of a snapshot package of the table, with the
    credential in the URL. *)
Definition clone_of (tok : string) (table : list (string * PackageInfo)) (ev : event)
  : Prop :=
  match ev with
  | EvSpawn _ (verb :: rest) _ _ =>
      verb = "clone" ->
      exists key pkg,
        Fs.assoc key table = Some pkg /\ snapshot pkg = true
        /\ rest = ["https://" +:+ tok +:+ "@github.com/" +:+ snapshotRepo pkg +:+ ".git"]
  | _ => True
  end.

(** Where a child process runs: the clone in [here], every other command in
    [dest]. *)
Definition runs_in (here dest : string) (ev : event) : Prop :=
  match ev with
  | EvSpawn _ (verb :: _) oc _ =>
      oc = Some (if String.eqb verb "clone" then here else dest)
  | _ => True
  end.

(** A step that did not succeed. *)
Definition step_failed (ev : event) : Prop :=
  match ev with
  | EvExecSync _ None | EvMkdtemp _ None | EvChdir _ false
  | EvCreateTemporaryProject None | EvBuild _ false | EvJsonHelp _ false => True
  | EvSpawn _ _ _ st => status_ne_0 st = true
  | _ => fs_failure ev
  end.

(** No step failed, the tolerated commands apart. *)
Definition went_well (b : string) (ev : event) : Prop :=
  step_failed ev ->
  match ev with
  | EvSpawn _ args _ _ => tolerated b args
  | _ => False
  end.

(** [returns_clean E ok m]: when [m] returns, all it emitted is in [ok]. *)
Definition returns_clean {A} (E : Env) (ok : event -> Prop) (m : M A) : Prop :=
  forall w a, out (m E w) = Returned a -> Forall ok (emitted (m E w)).

Definition is_chdir (ev : event) : bool :=
  match ev with
  | EvChdir _ _ => true
  | _ => false
  end.

(** The log that opens the treatment of a package: published or skipped. *)
Definition announcement (lg : logger) (pkg : PackageInfo) : event :=
  if snapshot pkg
  then EvLog lg Info ("Publishing " +:+ name pkg +:+ " to repo "
                        +:+ Js.stringify (snapshotRepo pkg) +:+ ".")
  else EvLog lg Warn ("Skipping " +:+ name pkg +:+ ".").

Definition is_announcement (ev : event) : bool :=
  match ev with
  | EvLog _ Info _ | EvLog _ Warn _ => true
  | _ => false
  end.

(** The announcements a loop over [keys] makes when it completes. *)
Definition announcements (lg : logger) (table : list (string * PackageInfo))
    (keys : list string) : list event :=
  flat_map (fun key => match Fs.assoc key table with
                       | Some pkg => [announcement lg pkg]
                       | None => []
                       end) keys.

(** How the sequence of a snapshot package opens when its clone succeeds: the
    announcement, the debug log of the working directory [here] and the clone
    of the package's mirror. *)
Definition sequence_opening (lg : logger) (pkg : PackageInfo) (tok here : string)
  : list event :=
  [ EvLog lg Info ("Publishing " +:+ name pkg +:+ " to repo "
                     +:+ Js.stringify (snapshotRepo pkg) +:+ ".");
    EvLog (createChild lg "publish") Debug ("Temporary directory: " +:+ here);
    EvSpawn "git" ["clone"; clone_url tok pkg] (Some here) (Some 0%Z) ].

(** The same within the loop, after the change to the temporary root. *)
Definition package_opening (lg : logger) (pkg : PackageInfo) (tok root here : string)
  : list event :=
  EvChdir root true :: sequence_opening lg pkg tok here.

(** Neither a final step, nor a change of directory, nor the announcement of
    a package. *)
Definition within_package (ev : event) : Prop :=
  ~ is_final_step ev /\ is_chdir ev = false /\ is_announcement ev = false.

(** *** White space in UTF-8 *)

(** A byte that can start a code point: not a continuation byte. *)
Definition lead_byte (c : ascii) : Prop := Js.code c < 128 \/ 192 <= Js.code c.

(** A string that is empty or starts a new code point. *)
Definition starts_code_point (y : string) : Prop :=
  match y with
  | EmptyString => True
  | String c _ => lead_byte c
  end.

(** ** Reasoning principles for the monad *)

Section Laws.
Context {A B : Type}.
Implicit Types (m : M A) (k : A -> M B) (E : Env) (w : World).

Lemma emitted_bind m k E w :
  emitted (bind m k E w) =
  emitted (m E w) ++
    match out (m E w) with
    | Returned a => emitted (k a E (advance w (m E w)))
    | _ => []
    end.
Proof.
  unfold bind. destruct (out (m E w)); simpl; auto using app_nil_r.
Qed.

Lemma out_bind m k E w :
  out (bind m k E w) =
  match out (m E w) with
  | Returned a => out (k a E (advance w (m E w)))
  | Thrown e => Thrown e
  | Exited c => Exited c
  end.
Proof. unfold bind. destruct (out (m E w)); reflexivity. Qed.

Lemma fs_after_bind m k E w :
  fs_after (bind m k E w) =
  match out (m E w) with
  | Returned a => fs_after (k a E (advance w (m E w)))
  | _ => fs_after (m E w)
  end.
Proof. unfold bind. destruct (out (m E w)); reflexivity. Qed.

Lemma emitted_try (m h : M A) E w :
  emitted (try_catch m h E w) =
  emitted (m E w) ++
    match out (m E w) with
    | Thrown _ => emitted (h E (advance w (m E w)))
    | _ => []
    end.
Proof.
  unfold try_catch. destruct (out (m E w)); simpl; auto using app_nil_r.
Qed.

Lemma out_try (m h : M A) E w :
  out (try_catch m h E w) =
  match out (m E w) with
  | Thrown _ => out (h E (advance w (m E w)))
  | o => o
  end.
Proof.
  unfold try_catch. destruct (out (m E w)) eqn:Ho; simpl; auto.
Qed.

(** A sequence returns only if its first part does. *)
Lemma bind_returned m k E w b :
  out (bind m k E w) = Returned b ->
  exists a, out (m E w) = Returned a
            /\ out (k a E (advance w (m E w))) = Returned b
            /\ emitted (bind m k E w)
               = emitted (m E w) ++ emitted (k a E (advance w (m E w))).
Proof.
  rewrite out_bind, emitted_bind.
  destruct (out (m E w)) as [a | e | c]; try discriminate.
  intros Hk. exists a. auto.
Qed.

(** An exception in the first part ends the sequence there. *)
Lemma bind_thrown m k E w e :
  out (m E w) = Thrown e ->
  emitted (bind m k E w) = emitted (m E w)
  /\ out (bind m k E w) = Thrown e
  /\ fs_after (bind m k E w) = fs_after (m E w).
Proof.
  intros H. rewrite emitted_bind, out_bind, fs_after_bind, H.
  auto using app_nil_r.
Qed.
End Laws.

Section Emits.
Context (E : Env) (P : event -> Prop).

Lemma emits_ret {A} (a : A) : emits E P (ret a).
Proof. intros w. constructor. Qed.

Lemma emits_throw {A} e : emits E P (@throw A e).
Proof. intros w. constructor. Qed.

Lemma emits_exit {A} c : emits E P (@process_exit A c).
Proof. intros w. constructor. Qed.

Lemma emits_cwd : emits E P process_cwd.
Proof. intros w. constructor. Qed.

Lemma emits_emit ev : P ev -> emits E P (emit ev).
Proof. intros H w. simpl. auto. Qed.

Lemma emits_log lg lvl msg : P (EvLog lg lvl msg) -> emits E P (log lg lvl msg).
Proof. apply emits_emit. Qed.

Lemma emits_bind {A B} (m : M A) (k : A -> M B) :
  emits E P m -> (forall a, emits E P (k a)) -> emits E P (bind m k).
Proof.
  intros Hm Hk w. rewrite emitted_bind. apply Forall_app. split; [apply Hm |].
  destruct (out (m E w)); auto; apply Hk.
Qed.

(** The environment read by [ask] is the one at hand. *)
Lemma emits_ask {B} (k : Env -> M B) : emits E P (k E) -> emits E P (bind ask k).
Proof.
  intros Hk w. rewrite emitted_bind. simpl. apply Hk.
Qed.

Lemma emits_try {A} (m h : M A) : emits E P m -> emits E P h -> emits E P (try_catch m h).
Proof.
  intros Hm Hh w. rewrite emitted_try. apply Forall_app. split; [apply Hm |].
  destruct (out (m E w)); auto; apply Hh.
Qed.

Lemma emits_forEach {A} (l : list A) (body : A -> M unit) :
  (forall x, In x l -> emits E P (body x)) -> emits E P (forEach l body).
Proof.
  induction l as [| x l IH]; intros H; simpl.
  - apply emits_ret.
  - apply emits_bind; [apply H; left; reflexivity |].
    intros _. apply IH. intros y Hy. apply H. right. exact Hy.
Qed.

Lemma emits_spawn c args oc :
  (forall st, P (EvSpawn c args oc st)) -> emits E P (spawn c args oc).
Proof. intros H w. simpl. auto. Qed.

Lemma emits_exec_sync cmd :
  (forall res, P (EvExecSync cmd res)) -> emits E P (exec_sync cmd).
Proof. intros H w. unfold exec_sync. destruct (execSync E w cmd).1; simpl; auto. Qed.

Lemma emits_mkdtemp prefix :
  (forall res, P (EvMkdtemp prefix res)) -> emits E P (mkdtemp prefix).
Proof. intros H w. unfold mkdtemp. destruct (mkdtempSync E w prefix).1; simpl; auto. Qed.

Lemma emits_chdir dir : (forall ok, P (EvChdir dir ok)) -> emits E P (chdir dir).
Proof. intros H w. unfold chdir. repeat case_match; simpl; auto. Qed.

Lemma emits_readdirSync p : (forall res, P (EvReaddir p res)) -> emits E P (readdirSync p).
Proof. intros H w. unfold readdirSync. repeat case_match; simpl; auto. Qed.

Lemma emits_statSync p : (forall res, P (EvStat p res)) -> emits E P (statSync_isDirectory p).
Proof. intros H w. unfold statSync_isDirectory. repeat case_match; simpl; auto. Qed.

Lemma emits_existsSync p : (forall res, P (EvExists p res)) -> emits E P (existsSync p).
Proof. intros H w. unfold existsSync. simpl. auto. Qed.

Lemma emits_mkdirSync p : (forall ok, P (EvMkdir p ok)) -> emits E P (mkdirSync p).
Proof. intros H w. unfold mkdirSync. repeat case_match; simpl; auto. Qed.

Lemma emits_readFileSync p : (forall res, P (EvReadFile p res)) -> emits E P (readFileSync p).
Proof. intros H w. unfold readFileSync. repeat case_match; simpl; auto. Qed.

Lemma emits_writeFileSync p c :
  (forall ok, P (EvWriteFile p c ok)) -> emits E P (writeFileSync p c).
Proof. intros H w. unfold writeFileSync. repeat case_match; simpl; auto. Qed.

Lemma emits_date_now : (forall t, P (EvDate t)) -> emits E P date_now.
Proof. intros H w. simpl. auto. Qed.

Lemma emits_createTemporaryProject lg :
  (forall res, P (EvCreateTemporaryProject res)) -> emits E P (call_createTemporaryProject lg).
Proof. intros H w. simpl. auto. Qed.

Lemma emits_build mode lg : (forall ok, P (EvBuild mode ok)) -> emits E P (call_build mode lg).
Proof. intros H w. simpl. auto. Qed.

Lemma emits_jsonHelp dir lg :
  (forall ok, P (EvJsonHelp dir ok)) -> emits E P (call_jsonHelp dir lg).
Proof. intros H w. simpl. auto. Qed.

Lemma emits_exec c args oc lg :
  (forall st, P (EvSpawn c args oc st)) -> P (EvLog lg Error (command_failed c args)) ->
  emits E P (_exec c args oc lg).
Proof.
  intros Hs Hl. unfold _exec. apply emits_bind; [apply emits_spawn, Hs |].
  intros r. destruct (status_ne_0 (status r)).
  - apply emits_bind; [apply emits_log, Hl | intros _; apply emits_throw].
  - apply emits_ret.
Qed.
End Emits.

(** [_copy] touches nothing but the file system. *)
Lemma emits_copy E (P : event -> Prop) depth from to :
  (forall ev, is_fs_event ev -> P ev) -> emits E P (_copy depth from to).
Proof.
  intros HP. revert from to.
  induction depth as [| d IH]; intros from to; simpl.
  all: apply emits_bind; [apply emits_readdirSync; intros; apply HP; exact I |].
  all: intros names; apply emits_forEach; intros x _.
  all: apply emits_bind; [apply emits_statSync; intros; apply HP; exact I |].
  all: intros [|].
  all: try (apply emits_bind; [apply emits_readFileSync; intros; apply HP; exact I |];
            intros c; apply emits_writeFileSync; intros; apply HP; exact I).
  all: apply emits_bind; [apply emits_existsSync; intros; apply HP; exact I |].
  all: intros present; apply emits_bind;
    [destruct (negb present);
     [apply emits_mkdirSync; intros; apply HP; exact I | apply emits_ret] |].
  - intros _. apply emits_throw.
  - intros _. apply IH.
Qed.

(** Walks a program along its structure, leaving one goal per kind of event
    it can produce; [tac] settles those. *)
Ltac emits_walk tac :=
  repeat (cbv zeta;
    lazymatch goal with
    | |- emits _ _ (bind ask _) => apply emits_ask
    | |- emits _ _ (bind _ _) => apply emits_bind; [| intros ?]
    | |- emits _ _ (try_catch _ _) => apply emits_try
    | |- emits _ _ (ret _) => apply emits_ret
    | |- emits _ _ (throw _) => apply emits_throw
    | |- emits _ _ (process_exit _) => apply emits_exit
    | |- emits _ _ process_cwd => apply emits_cwd
    | |- emits _ _ (log _ _ _) => apply emits_log; tac
    | |- emits _ _ (_exec _ _ _ _) => apply emits_exec; [intros ? |]; tac
    | |- emits _ _ (_copy _ _ _) => apply emits_copy; intros []; simpl; try tauto; tac
    | |- emits _ _ (exec_sync _) => apply emits_exec_sync; intros ?; tac
    | |- emits _ _ (mkdtemp _) => apply emits_mkdtemp; intros ?; tac
    | |- emits _ _ (chdir _) => apply emits_chdir; intros ?; tac
    | |- emits _ _ (readFileSync _) => apply emits_readFileSync; intros ?; tac
    | |- emits _ _ (writeFileSync _ _) => apply emits_writeFileSync; intros ?; tac
    | |- emits _ _ date_now => apply emits_date_now; intros ?; tac
    | |- emits _ _ (call_createTemporaryProject _) =>
        apply emits_createTemporaryProject; intros ?; tac
    | |- emits _ _ (call_build _ _) => apply emits_build; intros ?; tac
    | |- emits _ _ (call_jsonHelp _ _) => apply emits_jsonHelp; intros ?; tac
    | |- emits _ _ (forEach _ _) => apply emits_forEach; intros ? ?
    | |- emits _ _ (if ?b then _ else _) => destruct b eqn:?
    | |- emits _ _ (match ?x with _ => _ end) => destruct x eqn:?
    end).

Ltac branch_event :=
  simpl; try exact I;
  try (split; intros Hverb; first [discriminate Hverb | auto]).

(** Every checkout and push of the per-package sequence carries the branch it
    was handed. *)
Lemma publish_branch_args E pkg b msg lg tok :
  emits E (branch_args b) (_publishSnapshot pkg b msg lg tok).
Proof.
  unfold _publishSnapshot. emits_walk branch_event.
Qed.

Lemma publish_all_branch_args E root b msg lg tok table keys :
  emits E (branch_args b) (publish_all root b msg lg tok table keys).
Proof.
  unfold publish_all. emits_walk branch_event.
  apply publish_branch_args.
Qed.

Lemma snapshots_branch_args E opts lg :
  emits E (branch_args (resolve_branch opts (env E))) (snapshots opts lg).
Proof.
  unfold snapshots. emits_walk branch_event.
  apply publish_all_branch_args.
Qed.

(** ** Branch and credential resolution *)

(** What [resolve_branch] computes, case by case. *)
Lemma resolve_branch_cases opts (vars : gmap string string) :
  (forall ci, vars !! "CIRCLE_BRANCH" = Some ci -> resolve_branch opts vars = ci)
  /\ (vars !! "CIRCLE_BRANCH" = None ->
      forall b, branch opts = Some b -> b <> EmptyString -> resolve_branch opts vars = b)
  /\ (vars !! "CIRCLE_BRANCH" = None ->
      branch opts = None \/ branch opts = Some EmptyString ->
      resolve_branch opts vars = "main").
Proof.
  unfold resolve_branch. split; [| split].
  - intros ci ->. reflexivity.
  - intros -> b -> Hb. destruct b; [congruence | reflexivity].
  - intros -> [-> | ->]; reflexivity.
Qed.

(** C1 (as stated, refuted): with the option [branch = "feature"] and
    [CIRCLE_BRANCH = "ci"] the resolved branch is ["ci"], not the option, and
    the run checks out and pushes ["ci"]. *)
Lemma C1_option_loses_to_ci_branch :
  let opts := {| force := None; githubToken := Some "tok"; branch := Some "feature" |} in
  let vars : gmap string string := <["CIRCLE_BRANCH" := "ci"]> ∅ in
  let E := Demo.machine vars EmptyString Demo.never Demo.empty_mirror true in
  let dest := Some "/tmp/angular-cli-publish-Xy12ab/core-builds" in
  branch opts = Some "feature"
  /\ resolve_branch opts vars = "ci"
  /\ resolve_branch opts vars <> "feature"
  /\ In (EvSpawn "git" ["checkout"; "ci"] dest (Some 0%Z))
        (emitted (snapshots opts [] E (Demo.start true)))
  /\ In (EvSpawn "git" ["push"; "origin"; "ci"] dest (Some 0%Z))
        (emitted (snapshots opts [] E (Demo.start true))).
Proof.
  vm_compute. split; [| split; [| split; [| split]]]; try reflexivity; try discriminate; tauto.
Qed.

(** C1 (amended): the branch is the value of [CIRCLE_BRANCH] whenever that
    variable is set; otherwise the [branch] option when it is a non-empty
    string; otherwise ["main"].  Every checkout and every push of the run
    names the branch so resolved. *)
Theorem C1_branch_resolution E opts lg :
  (forall ci, env E !! "CIRCLE_BRANCH" = Some ci -> resolve_branch opts (env E) = ci)
  /\ (env E !! "CIRCLE_BRANCH" = None ->
      forall b, branch opts = Some b -> b <> EmptyString ->
                resolve_branch opts (env E) = b)
  /\ (env E !! "CIRCLE_BRANCH" = None ->
      branch opts = None \/ branch opts = Some EmptyString ->
      resolve_branch opts (env E) = "main")
  /\ emits E (branch_args (resolve_branch opts (env E))) (snapshots opts lg).
Proof.
  destruct (resolve_branch_cases opts (env E)) as (H1 & H2 & H3).
  split; [| split; [| split]]; auto using snapshots_branch_args.
Qed.

Lemma C1_branch_resolution_witness :
  let ci : gmap string string := <["CIRCLE_BRANCH" := "ci"]> ∅ in
  let feature := {| force := None; githubToken := None; branch := Some "feature" |} in
  let machine vars := Demo.machine vars EmptyString Demo.never Demo.empty_mirror true in
  resolve_branch feature (env (machine ci)) = "ci"
  /\ resolve_branch feature (env (machine ∅)) = "feature"
  /\ resolve_branch Demo.no_options (env (machine ∅)) = "main".
Proof.
  intros ci feature machine. split; [| split].
  - apply (proj1 (C1_branch_resolution (machine ci) feature [])). reflexivity.
  - apply (proj1 (proj2 (C1_branch_resolution (machine ∅) feature []))) ;
      [reflexivity | reflexivity | discriminate].
  - apply (proj1 (proj2 (proj2 (C1_branch_resolution (machine ∅) Demo.no_options [])))) ;
      [reflexivity | left; reflexivity].
Defined.

(** Without a credential no child process is started through [_exec]:
    no clone, no push, no git configuration. *)
Lemma dry_run_no_spawn E opts lg :
  resolve_token opts (env E) = EmptyString ->
  emits E (fun ev => ~ is_spawn ev) (snapshots opts lg).
Proof.
  intros Htok. unfold snapshots. apply emits_ask. rewrite Htok. cbn [Js.truthy negb].
  emits_walk ltac:(simpl; tauto).
Qed.

(** ** [String.prototype.trim] *)

Lemma append_cons c (x y : string) : String c x +:+ y = String c (x +:+ y).
Proof. reflexivity. Qed.

(** Each of the 25 white-space code points is removed at the start. *)
Lemma trim_start_skips ws s : In ws Js.spaces -> Js.trim_start (ws +:+ s) = Js.trim_start s.
Proof.
  unfold Js.spaces. simpl. intros H.
  repeat (destruct H as [<- | H]; [reflexivity |]). destruct H.
Qed.

Lemma two_byte_space_lead c1 c2 : lead_byte c2 -> Js.two_byte_space c1 c2 = false.
Proof.
  unfold lead_byte, Js.two_byte_space. intros H.
  destruct (Nat.eqb_spec (Js.code c2) 160); [lia |]. apply andb_false_r.
Qed.

Lemma three_byte_space_lead_2 c1 c2 c3 : lead_byte c2 -> Js.three_byte_space c1 c2 c3 = false.
Proof.
  unfold lead_byte, Js.three_byte_space. intros H.
  destruct (Nat.eqb_spec (Js.code c2) 154); [lia |].
  destruct (Nat.eqb_spec (Js.code c2) 128); [lia |].
  destruct (Nat.eqb_spec (Js.code c2) 129); [lia |].
  destruct (Nat.eqb_spec (Js.code c2) 187); [lia |].
  rewrite !andb_false_r. reflexivity.
Qed.

Lemma three_byte_space_lead_3 c1 c2 c3 : lead_byte c3 -> Js.three_byte_space c1 c2 c3 = false.
Proof.
  unfold lead_byte, Js.three_byte_space. intros H.
  destruct (Nat.eqb_spec (Js.code c3) 128); [lia |].
  destruct (Nat.eqb_spec (Js.code c3) 159); [lia |].
  destruct (Nat.eqb_spec (Js.code c3) 168); [lia |].
  destruct (Nat.eqb_spec (Js.code c3) 169); [lia |].
  destruct (Nat.eqb_spec (Js.code c3) 175); [lia |].
  destruct (Nat.eqb_spec (Js.code c3) 191); [lia |].
  destruct (Nat.leb_spec 128 (Js.code c3)), (Nat.leb_spec (Js.code c3) 138); try lia.
  all: rewrite ?andb_false_r; reflexivity.
Qed.

(** White space appended to [x] is removed from the end, whatever [x]. *)
Lemma blank_app x : forall y,
  starts_code_point y -> Js.blank y = true -> Js.blank (x +:+ y) = Js.blank x.
Proof.
  assert (forall n x, String.length x < n -> forall y,
             starts_code_point y -> Js.blank y = true ->
             Js.blank (x +:+ y) = Js.blank x) as Hall.
  { induction n as [| n IH]; intros x0 Hlen y Hy Hblank; [lia |].
    destruct x0 as [| c1 x1]; [exact Hblank |].
    unfold Js.blank in *. rewrite append_cons. cbn [Js.trim_start].
    simpl in Hlen.
    destruct (Js.is_ascii_space c1); [apply IH; [lia | assumption | assumption] |].
    destruct x1 as [| c2 x2].
    { change (EmptyString +:+ y) with y.
      destruct y as [| d1 y1]; [reflexivity |]. simpl in Hy.
      rewrite (two_byte_space_lead c1 d1 Hy).
      destruct y1 as [| d2 y2]; [reflexivity |].
      rewrite (three_byte_space_lead_2 c1 d1 d2 Hy). reflexivity. }
    rewrite append_cons. simpl in Hlen.
    destruct (Js.two_byte_space c1 c2); [apply IH; [lia | assumption | assumption] |].
    destruct x2 as [| c3 x3].
    { change (EmptyString +:+ y) with y.
      destruct y as [| d1 y1]; [reflexivity |]. simpl in Hy.
      rewrite (three_byte_space_lead_3 c1 c2 d1 Hy). reflexivity. }
    rewrite append_cons. simpl in Hlen.
    destruct (Js.three_byte_space c1 c2 c3); [apply IH; [lia | assumption | assumption] |].
    reflexivity. }
  intros y. apply (Hall (S (String.length x))). lia.
Qed.

Lemma trim_end_app x y :
  starts_code_point y -> Js.blank y = true -> Js.trim_end (x +:+ y) = Js.trim_end x.
Proof.
  intros Hy Hblank. induction x as [| c x IH].
  - change (EmptyString +:+ y) with y. destruct y as [| d y]; [reflexivity |].
    cbn [Js.trim_end]. rewrite Hblank. reflexivity.
  - rewrite append_cons. cbn [Js.trim_end].
    rewrite <- append_cons, (blank_app (String c x) y Hy Hblank), IH. reflexivity.
Qed.

Lemma space_is_blank ws : In ws Js.spaces -> starts_code_point ws /\ Js.blank ws = true.
Proof.
  unfold Js.spaces. simpl. intros H.
  repeat (destruct H as [<- | H];
          [split; [unfold starts_code_point, lead_byte, Js.code; vm_compute; lia | reflexivity] |]).
  destruct H.
Qed.

(** Each of the 25 white-space code points is removed at the end. *)
Lemma trim_end_skips ws s : In ws Js.spaces -> Js.trim_end (s +:+ ws) = Js.trim_end s.
Proof. intros H. destruct (space_is_blank ws H). apply trim_end_app; assumption. Qed.

(** What follows a string that is not blank stays where it is. *)
Lemma trim_start_app x : forall y,
  starts_code_point y -> Js.blank x = false ->
  Js.trim_start (x +:+ y) = Js.trim_start x +:+ y.
Proof.
  assert (forall n x, String.length x < n -> forall y,
             starts_code_point y -> Js.blank x = false ->
             Js.trim_start (x +:+ y) = Js.trim_start x +:+ y) as Hall.
  { induction n as [| n IH]; intros x0 Hlen y Hy Hblank; [lia |].
    destruct x0 as [| c1 x1]; [discriminate |].
    unfold Js.blank in *. rewrite append_cons. cbn [Js.trim_start] in *.
    simpl in Hlen.
    destruct (Js.is_ascii_space c1); [apply IH; [lia | assumption | assumption] |].
    destruct x1 as [| c2 x2].
    { change (EmptyString +:+ y) with y.
      destruct y as [| d1 y1]; [reflexivity |]. simpl in Hy.
      rewrite (two_byte_space_lead c1 d1 Hy).
      destruct y1 as [| d2 y2]; [reflexivity |].
      rewrite (three_byte_space_lead_2 c1 d1 d2 Hy). reflexivity. }
    rewrite append_cons. simpl in Hlen.
    destruct (Js.two_byte_space c1 c2); [apply IH; [lia | assumption | assumption] |].
    destruct x2 as [| c3 x3].
    { change (EmptyString +:+ y) with y.
      destruct y as [| d1 y1]; [reflexivity |]. simpl in Hy.
      rewrite (three_byte_space_lead_3 c1 c2 d1 Hy). reflexivity. }
    rewrite append_cons. simpl in Hlen.
    destruct (Js.three_byte_space c1 c2 c3); [apply IH; [lia | assumption | assumption] |].
    reflexivity. }
  intros y. apply (Hall (S (String.length x))). lia.
Qed.

(** [trim] removes each of the 25 white-space code points on either side. *)
Lemma trim_skips ws s :
  In ws Js.spaces -> Js.trim (ws +:+ s) = Js.trim s /\ Js.trim (s +:+ ws) = Js.trim s.
Proof.
  intros H. destruct (space_is_blank ws H) as [Hy Hblank]. unfold Js.trim. split.
  - rewrite (trim_start_skips ws s H). reflexivity.
  - destruct (Js.blank s) eqn:Hs.
    + pose proof (blank_app s ws Hy Hblank) as Hb. rewrite Hs in Hb.
      unfold Js.blank in Hs, Hb.
      destruct (Js.trim_start s); [| discriminate].
      destruct (Js.trim_start (s +:+ ws)); [reflexivity | discriminate].
    + rewrite (trim_start_app s ws Hy Hs). apply trim_end_app; assumption.
Qed.

(** What [resolve_token] computes, case by case. *)
Lemma resolve_token_cases opts (vars : gmap string string) :
  (forall t, githubToken opts = Some t -> t <> EmptyString ->
             resolve_token opts vars = Js.trim t)
  /\ (githubToken opts = None \/ githubToken opts = Some EmptyString ->
      forall t, vars !! "SNAPSHOT_BUILDS_GITHUB_TOKEN" = Some t ->
                resolve_token opts vars = Js.trim t)
  /\ (githubToken opts = None \/ githubToken opts = Some EmptyString ->
      vars !! "SNAPSHOT_BUILDS_GITHUB_TOKEN" = None ->
      resolve_token opts vars = EmptyString).
Proof.
  unfold resolve_token. split; [| split].
  - intros t -> Ht. destruct t; [congruence | reflexivity].
  - intros [-> | ->] t ->; simpl; destruct t; reflexivity.
  - intros [-> | ->] ->; reflexivity.
Qed.

(** C9 (as stated, refuted): the token option [" "] is a non-empty string, yet
    the credential used is not that option but the empty string, and the run
    takes the dry-run path although the environment provides a token. *)
Lemma C9_blank_option_is_a_dry_run :
  let opts := {| force := None; githubToken := Some " "; branch := None |} in
  let vars : gmap string string := <["SNAPSHOT_BUILDS_GITHUB_TOKEN" := "tok"]> ∅ in
  let E := Demo.machine vars EmptyString Demo.never Demo.empty_mirror true in
  githubToken opts = Some " "
  /\ resolve_token opts vars <> " "
  /\ resolve_token opts vars <> "tok"
  /\ resolve_token opts vars = EmptyString
  /\ List.last (emitted (snapshots opts [] E (Demo.start true))) (EvDate 0)
     = EvLog [] Info "No token given, skipping actual publishing...".
Proof.
  vm_compute. split; [| split; [| split; [| split]]]; try reflexivity; discriminate.
Qed.

(** C9 (amended): the credential is the token option with surrounding white
    space trimmed when the option is a non-empty string; otherwise the
    environment's token, trimmed; otherwise the empty string.  A credential
    that is empty after trimming selects the dry-run path: no child process
    is started through [_exec].  Trimming removes, on either side, every
    code point of [Js.spaces]: tab, line feed, vertical tab, form feed,
    carriage return, space, no-break space, the other space separators,
    the line and paragraph separators and the byte order mark. *)
Theorem C9_credential_resolution E opts lg :
  (forall t, githubToken opts = Some t -> t <> EmptyString ->
             resolve_token opts (env E) = Js.trim t)
  /\ (githubToken opts = None \/ githubToken opts = Some EmptyString ->
      forall t, env E !! "SNAPSHOT_BUILDS_GITHUB_TOKEN" = Some t ->
                resolve_token opts (env E) = Js.trim t)
  /\ (githubToken opts = None \/ githubToken opts = Some EmptyString ->
      env E !! "SNAPSHOT_BUILDS_GITHUB_TOKEN" = None ->
      resolve_token opts (env E) = EmptyString)
  /\ (resolve_token opts (env E) = EmptyString ->
      emits E (fun ev => ~ is_spawn ev) (snapshots opts lg))
  /\ (forall ws t, In ws Js.spaces ->
        Js.trim (ws +:+ t) = Js.trim t /\ Js.trim (t +:+ ws) = Js.trim t).
Proof.
  destruct (resolve_token_cases opts (env E)) as (H1 & H2 & H3).
  split; [| split; [| split; [| split]]]; auto using dry_run_no_spawn, trim_skips.
Qed.

Lemma C9_credential_resolution_witness :
  let tok : gmap string string := <["SNAPSHOT_BUILDS_GITHUB_TOKEN" := "env-tok "]> ∅ in
  let machine vars := Demo.machine vars EmptyString Demo.never Demo.empty_mirror true in
  let nbsp := Js.of_bytes [194; 160] in
  resolve_token (Demo.with_token " opt-tok") (env (machine tok)) = "opt-tok"
  /\ resolve_token Demo.no_options (env (machine tok)) = "env-tok"
  /\ resolve_token Demo.no_options (env (machine ∅)) = EmptyString
  /\ Forall (fun ev => ~ is_spawn ev)
       (emitted (snapshots Demo.no_options [] (machine ∅) (Demo.start true)))
  /\ resolve_token (Demo.with_token nbsp) (env (machine tok)) = EmptyString
  /\ Forall (fun ev => ~ is_spawn ev)
       (emitted (snapshots (Demo.with_token nbsp) [] (machine tok) (Demo.start true)))
  /\ Js.trim (nbsp +:+ "tok") = "tok"
  /\ Js.trim ("tok" +:+ nbsp) = "tok".
Proof.
  intros tok machine nbsp. split; [| split; [| split; [| split; [| split; [| split; [| split]]]]]].
  - change "opt-tok" with (Js.trim " opt-tok").
    apply (proj1 (C9_credential_resolution (machine tok) (Demo.with_token " opt-tok") []));
      [reflexivity | discriminate].
  - change "env-tok" with (Js.trim "env-tok ").
    apply (proj1 (proj2 (C9_credential_resolution (machine tok) Demo.no_options [])));
      [left; reflexivity | reflexivity].
  - apply (proj1 (proj2 (proj2 (C9_credential_resolution (machine ∅) Demo.no_options []))));
      [left; reflexivity | reflexivity].
  - apply (proj1 (proj2 (proj2 (proj2
             (C9_credential_resolution (machine ∅) Demo.no_options []))))).
    reflexivity.
  - change EmptyString with (Js.trim nbsp).
    apply (proj1 (C9_credential_resolution (machine tok) (Demo.with_token nbsp) []));
      [reflexivity | discriminate].
  - apply (proj1 (proj2 (proj2 (proj2
             (C9_credential_resolution (machine tok) (Demo.with_token nbsp) []))))).
    reflexivity.
  - change "tok" with (Js.trim "tok") at 2.
    apply (proj2 (proj2 (proj2 (proj2
             (C9_credential_resolution (machine tok) Demo.no_options [])))) nbsp "tok").
    unfold nbsp, Js.spaces. simpl. tauto.
  - change "tok" with (Js.trim "tok") at 2.
    apply (proj2 (proj2 (proj2 (proj2
             (C9_credential_resolution (machine tok) Demo.no_options [])))) nbsp "tok").
    unfold nbsp, Js.spaces. simpl. tauto.
Defined.

(** ** Running a program step by step *)

Lemma prepend_nil {A} (r : Res A) : prepend [] r = r.
Proof. destruct r. reflexivity. Qed.

Lemma world_eta w : {| fs := fs w; cwd := cwd w; hist := hist w ++ [] |} = w.
Proof. destruct w. simpl. rewrite app_nil_r. reflexivity. Qed.

Section Steps.
Context {A B : Type}.
Implicit Types (m : M A) (k : A -> M B) (E : Env) (w : World).

Lemma bind_step m k E w evs f d a :
  m E w = mkRes evs f d (Returned a) ->
  bind m k E w = prepend evs (k a E {| fs := f; cwd := d; hist := hist w ++ evs |}).
Proof. intros H. unfold bind. rewrite H. reflexivity. Qed.

Lemma bind_stop_thrown m k E w evs f d e :
  m E w = mkRes evs f d (Thrown e) -> bind m k E w = mkRes evs f d (Thrown e).
Proof. intros H. unfold bind. rewrite H. reflexivity. Qed.

Lemma bind_stop_exited m k E w evs f d c :
  m E w = mkRes evs f d (Exited c) -> bind m k E w = mkRes evs f d (Exited c).
Proof. intros H. unfold bind. rewrite H. reflexivity. Qed.

Lemma bind_ret (a : A) k E w : bind (ret a) k E w = k a E w.
Proof.
  rewrite (bind_step (ret a) k E w [] (fs w) (cwd w) a eq_refl).
  rewrite world_eta. apply prepend_nil.
Qed.
End Steps.

Lemma bind_ask {B} (k : Env -> M B) E w : bind ask k E w = k E E w.
Proof.
  rewrite (bind_step ask k E w [] (fs w) (cwd w) E eq_refl).
  rewrite world_eta. apply prepend_nil.
Qed.

Lemma bind_cwd {B} (k : string -> M B) E w : bind process_cwd k E w = k (cwd w) E w.
Proof.
  rewrite (bind_step process_cwd k E w [] (fs w) (cwd w) (cwd w) eq_refl).
  rewrite world_eta. apply prepend_nil.
Qed.

Lemma bind_log {B} lg lvl msg (k : unit -> M B) E w :
  bind (log lg lvl msg) k E w
  = prepend [EvLog lg lvl msg]
      (k tt E {| fs := fs w; cwd := cwd w; hist := hist w ++ [EvLog lg lvl msg] |}).
Proof. apply bind_step. reflexivity. Qed.

Lemma exec_sync_inl E w cmd text f :
  execSync E w cmd = (inl text, f) ->
  exec_sync cmd E w = mkRes [EvExecSync cmd (Some text)] f (cwd w) (Returned text).
Proof. intros H. unfold exec_sync. rewrite H. reflexivity. Qed.

Lemma exec_sync_inr E w cmd e f :
  execSync E w cmd = (inr e, f) ->
  exec_sync cmd E w = mkRes [EvExecSync cmd None] f (cwd w) (Thrown e).
Proof. intros H. unfold exec_sync. rewrite H. reflexivity. Qed.

Lemma mkdtemp_inl E w prefix dir f :
  mkdtempSync E w prefix = (inl dir, f) ->
  mkdtemp prefix E w = mkRes [EvMkdtemp prefix (Some dir)] f (cwd w) (Returned dir).
Proof. intros H. unfold mkdtemp. rewrite H. reflexivity. Qed.

Lemma mkdtemp_inr E w prefix e f :
  mkdtempSync E w prefix = (inr e, f) ->
  mkdtemp prefix E w = mkRes [EvMkdtemp prefix None] f (cwd w) (Thrown e).
Proof. intros H. unfold mkdtemp. rewrite H. reflexivity. Qed.

Lemma truthy_nonempty s : s <> EmptyString -> Js.truthy s = true.
Proof. destruct s; [congruence | reflexivity]. Qed.

(** ** The precondition on the working tree *)

(** C2: when [git status --porcelain] prints something and [force] is not
    set, the run logs one error and exits with code 1; nothing else has
    happened: no temporary directory, no child process, no write.  With
    [force] set the same run goes on to create the temporary directory. *)
Theorem C2_dirty_tree E w opts lg changes f :
  execSync E w git_status_cmd = (inl changes, f) ->
  changes <> EmptyString ->
  (force opts <> Some true ->
   snapshots opts lg E w
   = mkRes [EvExecSync git_status_cmd (Some changes);
            EvLog lg Error "You cannot run snapshots with local changes."]
       f (cwd w) (Exited 1%Z))
  /\ (force opts = Some true ->
      exists res rest,
        emitted (snapshots opts lg E w)
        = EvExecSync git_status_cmd (Some changes)
            :: EvMkdtemp (Path.join (tmpdir E) "angular-cli-publish-") res :: rest).
Proof.
  intros Hst Hne. apply truthy_nonempty in Hne.
  unfold snapshots. rewrite bind_ask.
  rewrite (bind_step _ _ _ _ _ _ _ _ (exec_sync_inl _ _ _ _ _ Hst)).
  rewrite Hne. split.
  - intros Hforce.
    assert (default false (force opts) = false) as ->
        by (destruct (force opts) as [[|]|]; simpl; congruence).
    reflexivity.
  - intros ->. cbn [default negb andb from_option id]. rewrite bind_ret.
    unfold prepend. cbn [emitted mkRes app].
    rewrite emitted_bind.
    match goal with |- context [mkdtemp ?p E ?w'] =>
      destruct (mkdtempSync E w' p) as [[dir | e] f'] eqn:Htmp end.
    + rewrite (mkdtemp_inl _ _ _ _ _ Htmp). cbn [emitted mkRes app]. eauto.
    + rewrite (mkdtemp_inr _ _ _ _ _ Htmp). cbn [emitted mkRes app]. eauto.
Qed.

Lemma C2_dirty_tree_witness :
  let E := Demo.machine ∅ " M README.md" Demo.never Demo.empty_mirror true in
  out (snapshots Demo.no_options [] E (Demo.start true)) = Exited 1%Z
  /\ exists res rest,
      emitted (snapshots {| force := Some true; githubToken := None; branch := None |}
                 [] E (Demo.start true))
      = EvExecSync git_status_cmd (Some " M README.md")
          :: EvMkdtemp "/tmp/angular-cli-publish-" res :: rest.
Proof.
  intros E.
  pose proof (C2_dirty_tree E (Demo.start true) Demo.no_options [] " M README.md"
                (Demo.disk true) eq_refl ltac:(discriminate)) as [Hexit _].
  pose proof (C2_dirty_tree E (Demo.start true)
                {| force := Some true; githubToken := None; branch := None |} []
                " M README.md" (Demo.disk true) eq_refl ltac:(discriminate)) as [_ Hgo].
  split.
  - rewrite Hexit; [reflexivity | discriminate].
  - apply Hgo. reflexivity.
Defined.

(** ** What a primitive that returned has emitted *)

Lemma exec_sync_returned E w cmd text :
  out (exec_sync cmd E w) = Returned text ->
  emitted (exec_sync cmd E w) = [EvExecSync cmd (Some text)].
Proof.
  unfold exec_sync. destruct (execSync E w cmd).1; simpl; congruence.
Qed.

Lemma mkdtemp_returned E w prefix dir :
  out (mkdtemp prefix E w) = Returned dir ->
  emitted (mkdtemp prefix E w) = [EvMkdtemp prefix (Some dir)].
Proof.
  unfold mkdtemp. destruct (mkdtempSync E w prefix).1; simpl; congruence.
Qed.

Lemma createTemporaryProject_returned E w lg dir :
  out (call_createTemporaryProject lg E w) = Returned dir ->
  emitted (call_createTemporaryProject lg E w) = [EvCreateTemporaryProject (Some dir)].
Proof. simpl. intros ->. reflexivity. Qed.

Lemma build_returned E w mode lg u :
  out (call_build mode lg E w) = Returned u ->
  emitted (call_build mode lg E w) = [EvBuild mode true].
Proof. simpl. intros ->. reflexivity. Qed.

Lemma jsonHelp_returned E w dir lg u :
  out (call_jsonHelp dir lg E w) = Returned u ->
  emitted (call_jsonHelp dir lg E w) = [EvJsonHelp dir true].
Proof. simpl. intros ->. reflexivity. Qed.

Lemma exec_sync_out E w cmd text :
  (execSync E w cmd).1 = inl text -> out (exec_sync cmd E w) = Returned text.
Proof. unfold exec_sync. intros ->. reflexivity. Qed.

Lemma mkdtemp_out E w prefix dir :
  (mkdtempSync E w prefix).1 = inl dir -> out (mkdtemp prefix E w) = Returned dir.
Proof. unfold mkdtemp. intros ->. reflexivity. Qed.

Lemma chdir_returned E w dir u :
  out (chdir dir E w) = Returned u -> emitted (chdir dir E w) = [EvChdir dir true].
Proof. unfold chdir. repeat case_match; simpl; congruence. Qed.

(** ** The run without credential *)

(** C3: when the resolved credential is empty, no child process is started
    through [_exec] (no clone, no push, no git identity); a run that returns
    returns 0 after exactly the status check, the temporary directory, the
    log query, the staging project, the build, the help generation and the
    log of the skip; and the run does return 0 whenever the precondition on
    the working tree passes and the shell and the collaborators succeed. *)
Theorem C3_no_credential E w opts lg :
  resolve_token opts (env E) = EmptyString ->
  Forall (fun ev => ~ is_spawn ev) (emitted (snapshots opts lg E w))
  /\ (forall z, out (snapshots opts lg E w) = Returned z ->
        z = 0%Z
        /\ exists changes root logged project,
            emitted (snapshots opts lg E w)
            = dry_run_trace E lg changes root logged project)
  /\ (cooperative E -> passes_precondition E w opts ->
      out (snapshots opts lg E w) = Returned 0%Z).
Proof.
  intros Htok. split; [apply dry_run_no_spawn, Htok |].
  unfold snapshots. rewrite bind_ask, Htok. cbn [Js.truthy negb]. split.
  - intros z Hret.
    apply bind_returned in Hret as (changes & H1 & Hret & ->).
    apply exec_sync_returned in H1 as ->.
    apply bind_returned in Hret as ([] & H2 & Hret & ->).
    assert (emitted ((if Js.truthy changes && negb (default false (force opts))
                      then log lg Error "You cannot run snapshots with local changes.";;
                           process_exit 1%Z
                      else ret tt) E
                       (advance w (exec_sync git_status_cmd E w))) = []) as ->.
    { destruct (Js.truthy changes && negb (default false (force opts)));
        [discriminate H2 | reflexivity]. }
    apply bind_returned in Hret as (root & H3 & Hret & ->).
    apply mkdtemp_returned in H3 as ->.
    apply bind_returned in Hret as (logged & H4 & Hret & ->).
    apply exec_sync_returned in H4 as ->.
    apply bind_returned in Hret as ([] & _ & Hret & ->).
    apply bind_returned in Hret as (project & H5 & Hret & ->).
    apply createTemporaryProject_returned in H5 as ->.
    apply bind_returned in Hret as ([] & _ & Hret & ->).
    apply bind_returned in Hret as ([] & H6 & Hret & ->).
    apply build_returned in H6 as ->.
    apply bind_returned in Hret as ([] & H7 & Hret & ->).
    apply jsonHelp_returned in H7 as ->.
    apply bind_returned in Hret as ([] & _ & Hret & ->).
    split; [simpl in Hret; congruence |].
    exists changes, root, logged, project. reflexivity.
  - intros (Hsh & Htmp & Hctp & Hbuild & Hhelp) Hpre.
    rewrite out_bind.
    assert (exists changes,
               out (exec_sync git_status_cmd E w) = Returned changes
               /\ Js.truthy changes && negb (default false (force opts)) = false)
      as (changes & -> & Hgo).
    { destruct Hpre as [Hclean | Hforce].
      - exists EmptyString. split; [apply exec_sync_out, Hclean | reflexivity].
      - destruct (Hsh w git_status_cmd) as [changes Hc]. exists changes.
        split; [apply exec_sync_out, Hc |]. rewrite Hforce. apply andb_false_r. }
    rewrite Hgo, bind_ret, out_bind.
    match goal with |- context [mkdtemp ?p E ?w'] => destruct (Htmp w' p) as [root Hr] end.
    rewrite (mkdtemp_out _ _ _ _ Hr), out_bind.
    match goal with |- context [exec_sync ?c E ?w'] => destruct (Hsh w' c) as [logged Hl] end.
    rewrite (exec_sync_out _ _ _ _ Hl), bind_ret, out_bind.
    match goal with |- context [call_createTemporaryProject lg E ?w'] =>
      destruct (Hctp w' lg) as [project Hp] end.
    unfold call_createTemporaryProject at 1. cbn [out mkRes]. rewrite Hp.
    rewrite out_bind. cbn [out log emit].
    rewrite out_bind. unfold call_build at 1. cbn [out mkRes]. rewrite Hbuild.
    rewrite out_bind. unfold call_jsonHelp at 1. cbn [out mkRes]. rewrite Hhelp.
    reflexivity.
Qed.

Lemma C3_no_credential_witness :
  let E := Demo.machine ∅ EmptyString Demo.never Demo.empty_mirror true in
  let r := snapshots Demo.no_options [] E (Demo.start true) in
  Forall (fun ev => ~ is_spawn ev) (emitted r) /\ out r = Returned 0%Z.
Proof.
  intros E r.
  destruct (C3_no_credential E (Demo.start true) Demo.no_options [] eq_refl)
    as (Hquiet & _ & Hret).
  split; [exact Hquiet |].
  apply Hret.
  - unfold cooperative. simpl. split; [| split; [| split; [| split]]]; eauto.
    intros w cmd. unfold Demo.shell. repeat case_match; simpl; eauto.
  - left. reflexivity.
Defined.

(** ** Packages that are not snapshot *)

Lemma chdir_dir E w dir entries :
  Fs.lookup (fs w) (Path.resolve (cwd w) dir) = Some (Fs.Dir entries) ->
  chdir dir E w
  = mkRes [EvChdir dir true] (fs w) (Path.render (Path.resolve (cwd w) dir)) (Returned tt).
Proof. intros H. unfold chdir. rewrite H. reflexivity. Qed.

Lemma publish_skips E w pkg b msg lg tok :
  snapshot pkg = false ->
  _publishSnapshot pkg b msg lg tok E w
  = mkRes [EvLog lg Warn ("Skipping " +:+ name pkg +:+ ".")] (fs w) (cwd w) (Returned tt).
Proof. intros H. unfold _publishSnapshot. rewrite H. reflexivity. Qed.

(** C5: for a package whose [snapshot] attribute is false the per-package
    sequence logs the skip and returns: no child process, no file-system
    call, the file system and the working directory as before.  In the loop
    over the table (once [process.chdir] to the temporary root has
    succeeded) the run then goes on with the remaining keys, in order. *)
Theorem C5_skipped_package E w pkg b msg lg tok :
  snapshot pkg = false ->
  _publishSnapshot pkg b msg lg tok E w
  = mkRes [EvLog lg Warn ("Skipping " +:+ name pkg +:+ ".")] (fs w) (cwd w) (Returned tt)
  /\ forall root table key rest entries,
      Fs.assoc key table = Some pkg ->
      Fs.lookup (fs w) (Path.resolve (cwd w) root) = Some (Fs.Dir entries) ->
      let skipped := [EvChdir root true; EvLog lg Warn ("Skipping " +:+ name pkg +:+ ".")] in
      publish_all root b msg lg tok table (key :: rest) E w
      = prepend skipped
          (publish_all root b msg lg tok table rest E
             {| fs := fs w; cwd := Path.render (Path.resolve (cwd w) root);
                hist := hist w ++ skipped |}).
Proof.
  intros Hskip. split; [apply publish_skips, Hskip |].
  intros root table key rest entries Hkey Hdir skipped.
  unfold publish_all. cbn [forEach].
  etransitivity;
    [apply bind_step with (evs := skipped) (f := fs w)
                          (d := Path.render (Path.resolve (cwd w) root)) (a := tt)
    | reflexivity].
  rewrite (bind_step _ _ _ _ _ _ _ _ (chdir_dir _ _ _ _ Hdir)).
  rewrite Hkey, (publish_skips _ _ _ _ _ _ _ Hskip). reflexivity.
Qed.

Lemma C5_skipped_package_witness :
  let E := Demo.machine ∅ EmptyString Demo.never Demo.empty_mirror true in
  let w := Demo.start true in
  emitted (_publishSnapshot Demo.docs "main" "msg" [] "tok" E w) = [EvLog [] Warn "Skipping docs."]
  /\ emitted (publish_all "/tmp" "main" "msg" [] "tok" Demo.table ["docs"] E w)
     = [EvChdir "/tmp" true; EvLog [] Warn "Skipping docs."].
Proof.
  intros E w.
  destruct (C5_skipped_package E w Demo.docs "main" "msg" [] "tok" eq_refl) as [Hone Hloop].
  split.
  - rewrite Hone. reflexivity.
  - rewrite (Hloop "/tmp" Demo.table "docs" [] [] eq_refl eq_refl). reflexivity.
Defined.

(** ** [_exec] *)

Lemma _exec_run c args oc lg E w :
  _exec c args oc lg E w
  = if status_ne_0 (status (spawnSync E w c args oc).1)
    then mkRes [EvSpawn c args oc (status (spawnSync E w c args oc).1);
                EvLog lg Error (command_failed c args)]
           (spawnSync E w c args oc).2 (cwd w)
           (Thrown (default Undefined (error (spawnSync E w c args oc).1)))
    else mkRes [EvSpawn c args oc (status (spawnSync E w c args oc).1)]
           (spawnSync E w c args oc).2 (cwd w)
           (Returned (stdout (spawnSync E w c args oc).1)).
Proof.
  unfold _exec, bind, spawn. cbn [out mkRes emitted fs_after cwd_after].
  destruct (status_ne_0 (status (spawnSync E w c args oc).1)); reflexivity.
Qed.

Lemma status_ne_0_false st : status_ne_0 st = false -> st = Some 0%Z.
Proof. destruct st as [[| |]|]; simpl; congruence. Qed.

Lemma _exec_returned c args oc lg E w s :
  out (_exec c args oc lg E w) = Returned s ->
  emitted (_exec c args oc lg E w) = [EvSpawn c args oc (Some 0%Z)].
Proof.
  rewrite _exec_run.
  destruct (status_ne_0 (status (spawnSync E w c args oc).1)) eqn:Hst; simpl.
  - discriminate.
  - intros _. rewrite (status_ne_0_false _ Hst). reflexivity.
Qed.

(** ** The final steps of the per-package sequence *)

Ltac not_final := simpl; try tauto; try (intros Hfinal; discriminate Hfinal).

Ltac by_alphabet tac :=
  lazymatch goal with
  | |- Forall ?P (emitted (?m ?E ?w)) =>
      let H := fresh in
      assert (H : emits E P m); [emits_walk tac | exact (H w)]
  end.

(** [bind_returned] with the world left for the continuation kept abstract,
    so that a long sequence can be taken apart step by step. *)
Lemma bind_returned_in {A B} (m : M A) (k : A -> M B) E w b :
  out (bind m k E w) = Returned b ->
  exists a w', w' = advance w (m E w)
               /\ out (m E w) = Returned a
               /\ out (k a E w') = Returned b
               /\ emitted (bind m k E w) = emitted (m E w) ++ emitted (k a E w').
Proof.
  intros H. apply bind_returned in H as (a & Ha & Hk & Hem). eauto 10.
Qed.

Ltac peel H x w' Hx :=
  apply bind_returned_in in H as (x & w' & _ & Hx & H & ->).

Lemma publish_returned_ends E w pkg b msg lg tok :
  snapshot pkg = true ->
  out (_publishSnapshot pkg b msg lg tok E w) = Returned tt ->
  exists pre,
    emitted (_publishSnapshot pkg b msg lg tok E w)
    = pre ++ final_steps pkg b msg (Path.join (cwd w) (Path.basename (snapshotRepo pkg)))
    /\ Forall (fun ev => ~ is_final_step ev) pre.
Proof.
  intros Hsnap. unfold _publishSnapshot. rewrite Hsnap. cbn [negb].
  rewrite bind_log, bind_cwd. cbv zeta. cbn [cwd]. rewrite bind_log.
  unfold prepend. cbn [out emitted mkRes].
  intros Hret.
  peel Hret s4 w4 H4. peel Hret u5 w5 H5. peel Hret u6 w6 H6.
  peel Hret E7 w7 H7. peel Hret u8 w8 H8. peel Hret u9 w9 H9. peel Hret readme w10 H10.
  peel Hret u11 w11 H11. peel Hret stamp w12 H12. peel Hret u13 w13 H13.
  peel Hret s14 w14 H14. peel Hret s15 w15 H15. peel Hret s16 w16 H16. peel Hret s17 w17 H17.
  peel Hret s18 w18 H18.
  apply _exec_returned in H14 as ->. apply _exec_returned in H15 as ->.
  apply _exec_returned in H16 as ->. apply _exec_returned in H17 as ->.
  apply _exec_returned in H18 as ->.
  cbn [emitted ret].
  eexists. split.
  - match goal with
    | |- context [?e1 ++ ?e2 ++ ?e3 ++ ?e4 ++ ?e5 ++ []] =>
        change (e1 ++ e2 ++ e3 ++ e4 ++ e5 ++ [])
          with (final_steps pkg b msg
                  (Path.join (cwd w) (Path.basename (snapshotRepo pkg))))
    end.
    rewrite !app_assoc. reflexivity.
  - rewrite !Forall_app. repeat split.
    all: try (apply Forall_nil; exact I).
    all: try (constructor; [not_final | constructor]).
    all: by_alphabet not_final.
Qed.

Lemma split_later {A} (x l pre rest : list A) :
  l = pre ++ rest -> x ++ l = (x ++ pre) ++ rest.
Proof. intros ->. apply app_assoc. Qed.

Ltac inside_package :=
  unfold within_package; simpl;
  (split; [try tauto; try (intros Hfinal; discriminate Hfinal) | split; reflexivity]).

(** A per-package sequence that completes, from its first event to its
    last. *)
Lemma publish_returned_shape E w pkg b msg lg tok :
  snapshot pkg = true ->
  out (_publishSnapshot pkg b msg lg tok E w) = Returned tt ->
  exists mid,
    emitted (_publishSnapshot pkg b msg lg tok E w)
    = sequence_opening lg pkg tok (cwd w) ++ mid
        ++ final_steps pkg b msg (Path.join (cwd w) (Path.basename (snapshotRepo pkg)))
    /\ Forall within_package mid.
Proof.
  intros Hsnap. unfold _publishSnapshot. rewrite Hsnap. cbn [negb].
  rewrite bind_log, bind_cwd. cbv zeta. cbn [cwd]. rewrite bind_log.
  unfold prepend. cbn [out emitted mkRes].
  intros Hret.
  peel Hret s4 w4 H4. peel Hret u5 w5 H5. peel Hret u6 w6 H6.
  peel Hret E7 w7 H7. peel Hret u8 w8 H8. peel Hret u9 w9 H9.
  peel Hret readme w10 H10. peel Hret u11 w11 H11. peel Hret stamp w12 H12.
  peel Hret u13 w13 H13.
  peel Hret s14 w14 H14. peel Hret s15 w15 H15. peel Hret s16 w16 H16.
  peel Hret s17 w17 H17. peel Hret s18 w18 H18.
  apply _exec_returned in H4 as ->.
  apply _exec_returned in H14 as ->. apply _exec_returned in H15 as ->.
  apply _exec_returned in H16 as ->. apply _exec_returned in H17 as ->.
  apply _exec_returned in H18 as ->.
  cbn [emitted ret].
  match goal with
  | |- context [?e1 ++ ?e2 ++ ?e3 ++ ?e4 ++ ?e5 ++ []] =>
      change (e1 ++ e2 ++ e3 ++ e4 ++ e5 ++ [])
        with (final_steps pkg b msg
                (Path.join (cwd w) (Path.basename (snapshotRepo pkg))))
  end.
  unfold sequence_opening. cbn [app].
  eexists. split.
  - do 3 f_equal. do 8 apply split_later. reflexivity.
  - rewrite !Forall_app. repeat split.
    all: try (apply Forall_nil; exact I).
    all: by_alphabet inside_package.
Qed.

(** A loop that completes has given every snapshot package of its keys its
    own complete sequence. *)
Lemma publish_all_returned E root b msg lg tok table keys :
  forall w,
    out (publish_all root b msg lg tok table keys E w) = Returned tt ->
    forall key pkg,
      In key keys -> Fs.assoc key table = Some pkg -> snapshot pkg = true ->
      exists here pre mid post,
        emitted (publish_all root b msg lg tok table keys E w)
        = pre ++ package_opening lg pkg tok root here ++ mid
              ++ final_steps pkg b msg (Path.join here (Path.basename (snapshotRepo pkg)))
              ++ post
        /\ Forall within_package mid.
Proof.
  unfold publish_all.
  induction keys as [| k rest IH]; intros w Hret key pkg Hin Hkey Hsnap; [destruct Hin |].
  cbn [forEach] in *.
  peel Hret u w1 Hhead.
  destruct Hin as [-> | Hin].
  - rewrite Hkey in *. peel Hhead u0 w0 Hcd.
    apply chdir_returned in Hcd as ->. destruct u.
    destruct (publish_returned_shape E w0 pkg b msg lg tok Hsnap Hhead)
      as (mid & -> & Hmid).
    exists (cwd w0), [], mid. eexists. split; [| exact Hmid].
    unfold package_opening. cbn [app]. rewrite <- !app_assoc. reflexivity.
  - destruct (IH w1 Hret key pkg Hin Hkey Hsnap) as (here & pre & mid & post & -> & Hmid).
    exists here. eexists. exists mid, post. split; [| exact Hmid].
    apply split_later. reflexivity.
Qed.

(** C7: a per-package sequence that completes has ended with, in this order,
    [git add .], [git commit -a -m message], [git tag snapshotHash],
    [git push origin branch] and [git push --tags origin branch], all run in
    the clone, and none of these four kinds of command was run before.  In
    a complete run with a credential every snapshot package of the table has
    had its own sequence: after the change to the temporary root, its
    announcement and the clone of its mirror, and with no other package in
    between, come these five steps run in the directory named after its
    repository, with its hash as tag and, as message, the trimmed output
    of the query for the latest commit's short hash and subject line. *)
Theorem C7_final_steps_in_order E w :
  (forall pkg b msg lg tok,
      snapshot pkg = true ->
      out (_publishSnapshot pkg b msg lg tok E w) = Returned tt ->
      exists pre,
        emitted (_publishSnapshot pkg b msg lg tok E w)
        = pre ++ final_steps pkg b msg
                   (Path.join (cwd w) (Path.basename (snapshotRepo pkg)))
        /\ Forall (fun ev => ~ is_final_step ev) pre)
  /\ (forall opts lg z,
        resolve_token opts (env E) <> EmptyString ->
        out (snapshots opts lg E w) = Returned z ->
        forall key pkg,
          In key (List.map fst (packages E)) ->
          Fs.assoc key (packages E) = Some pkg ->
          snapshot pkg = true ->
          exists logged root here pre mid post,
            emitted (snapshots opts lg E w)
            = pre ++ package_opening lg pkg (resolve_token opts (env E)) root here
                  ++ mid
                  ++ final_steps pkg (resolve_branch opts (env E)) (Js.trim logged)
                       (Path.join here (Path.basename (snapshotRepo pkg)))
                  ++ post
            /\ Forall within_package mid
            /\ In (EvExecSync git_log_cmd (Some logged)) pre
            /\ In (EvMkdtemp (Path.join (tmpdir E) "angular-cli-publish-") (Some root)) pre).
Proof.
  split; [intros; apply publish_returned_ends; assumption |].
  intros opts lg z Htok Hret key pkg Hin Hkey Hsnap.
  apply truthy_nonempty in Htok.
  unfold snapshots in *. rewrite bind_ask in *. rewrite Htok in *. cbn [negb] in *.
  peel Hret changes w1 H1. peel Hret u2 w2 H2. peel Hret root w3 H3.
  peel Hret logged w4 H4. cbv zeta in *.
  peel Hret u5 w5 H5. peel Hret project w6 H6. peel Hret u7 w7 H7.
  peel Hret u8 w8 H8. peel Hret u9 w9 H9. peel Hret u10 w10 H10.
  destruct u10.
  destruct (publish_all_returned _ _ _ _ _ _ _ _ _ H10 key pkg Hin Hkey Hsnap)
    as (here & pre & mid & post & -> & Hmid).
  apply exec_sync_returned in H4 as ->. apply mkdtemp_returned in H3 as ->.
  rewrite <- !app_assoc.
  exists logged, root, here. eexists. exists mid. eexists.
  split; [| split; [exact Hmid | split]].
  - do 9 apply split_later. reflexivity.
  - rewrite !in_app_iff. do 3 right. left. left. reflexivity.
  - rewrite !in_app_iff. do 2 right. left. left. reflexivity.
Qed.

Lemma C7_final_steps_in_order_witness :
  let E := Demo.machine ∅ EmptyString Demo.never Demo.empty_mirror true in
  let r := snapshots (Demo.with_token "tok") [] E (Demo.start true) in
  out r = Returned 0%Z
  /\ exists logged root here pre mid post,
      emitted r
      = pre ++ package_opening [] Demo.core "tok" root here ++ mid
            ++ final_steps Demo.core "main" (Js.trim logged)
                 (Path.join here (Path.basename (snapshotRepo Demo.core)))
            ++ post
      /\ Forall within_package mid
      /\ In (EvExecSync git_log_cmd (Some logged)) pre
      /\ In (EvMkdtemp (Path.join (tmpdir E) "angular-cli-publish-") (Some root)) pre.
Proof.
  intros E r. split; [vm_compute; reflexivity |].
  refine (proj2 (C7_final_steps_in_order E (Demo.start true))
            (Demo.with_token "tok") [] 0%Z _ _ "core" Demo.core _ _ _);
    [vm_compute; discriminate | vm_compute; reflexivity | right; left; reflexivity
    | reflexivity | reflexivity].
Defined.

(** ** An empty [CIRCLE_BRANCH] *)

Ltac quiet_event :=
  split; [simpl; intros Hverb; discriminate Hverb | branch_event].

Lemma publish_without_branch E pkg msg lg tok :
  emits E (fun ev => verb_of ev <> Some "checkout" /\ branch_args EmptyString ev)
    (_publishSnapshot pkg EmptyString msg lg tok).
Proof.
  unfold _publishSnapshot. cbn [Js.truthy]. emits_walk quiet_event.
Qed.

(** C10: when [CIRCLE_BRANCH] is set to the empty string the resolved branch
    is the empty string, whatever the [branch] option; no checkout is run at
    all during the run, for any package; every push names the empty string
    as branch, and a per-package sequence that completes ends with
    [git push origin ""] and [git push --tags origin ""]. *)
Theorem C10_empty_ci_branch E opts lg :
  env E !! "CIRCLE_BRANCH" = Some EmptyString ->
  resolve_branch opts (env E) = EmptyString
  /\ emits E (fun ev => verb_of ev <> Some "checkout" /\ branch_args EmptyString ev)
       (snapshots opts lg)
  /\ forall w pkg msg tok,
      snapshot pkg = true ->
      out (_publishSnapshot pkg (resolve_branch opts (env E)) msg lg tok E w) = Returned tt ->
      exists pre dest,
        emitted (_publishSnapshot pkg (resolve_branch opts (env E)) msg lg tok E w)
        = pre ++ [EvSpawn "git" ["push"; "origin"; EmptyString] (Some dest) (Some 0%Z);
                  EvSpawn "git" ["push"; "--tags"; "origin"; EmptyString] (Some dest)
                    (Some 0%Z)].
Proof.
  intros Hci.
  assert (resolve_branch opts (env E) = EmptyString) as Hb
      by (apply (proj1 (resolve_branch_cases opts (env E))), Hci).
  split; [exact Hb |]. split.
  - unfold snapshots. apply emits_ask. rewrite Hb.
    emits_walk quiet_event.
    unfold publish_all. emits_walk quiet_event.
    apply publish_without_branch.
  - rewrite Hb. intros w pkg msg tok Hsnap Hret.
    destruct (publish_returned_ends E w pkg EmptyString msg lg tok Hsnap Hret)
      as (pre & -> & _).
    exists (pre ++ firstn 3 (final_steps pkg EmptyString msg
                               (Path.join (cwd w) (Path.basename (snapshotRepo pkg))))),
      (Path.join (cwd w) (Path.basename (snapshotRepo pkg))).
    rewrite <- app_assoc. reflexivity.
Qed.

Lemma C10_empty_ci_branch_witness :
  let vars : gmap string string := <["CIRCLE_BRANCH" := EmptyString]> ∅ in
  let E := Demo.machine vars EmptyString Demo.never Demo.empty_mirror true in
  let opts := {| force := None; githubToken := Some "tok"; branch := Some "feature" |} in
  resolve_branch opts (env E) = EmptyString
  /\ Forall (fun ev => verb_of ev <> Some "checkout" /\ branch_args EmptyString ev)
       (emitted (snapshots opts [] E (Demo.start true)))
  /\ out (snapshots opts [] E (Demo.start true)) = Returned 0%Z
  /\ In (EvSpawn "git" ["push"; "origin"; EmptyString]
           (Some "/tmp/angular-cli-publish-Xy12ab/core-builds") (Some 0%Z))
        (emitted (snapshots opts [] E (Demo.start true))).
Proof.
  intros vars E opts.
  destruct (C10_empty_ci_branch E opts [] eq_refl) as (Hb & Hquiet & _).
  split; [exact Hb |]. split; [apply Hquiet |].
  split; [vm_compute; reflexivity | vm_compute; tauto].
Defined.

(** ** README header and uniqueness marker *)

Lemma writeFileSync_returned E w p c u :
  out (writeFileSync p c E w) = Returned u ->
  emitted (writeFileSync p c E w) = [EvWriteFile p c true].
Proof.
  unfold writeFileSync. repeat case_match; simpl; congruence.
Qed.

(** The README step: the header, followed by what the file holds at that
    moment when it can be read. *)
Lemma readme_step E w p header :
  let old := match Fs.lookup (fs w) (Path.resolve (cwd w) p) with
             | Some (Fs.File content) => Some content
             | _ => None
             end in
  emitted (try_catch (old <- readFileSync p ;; ret (header +:+ old)) (ret header) E w)
  = [EvReadFile p old]
  /\ out (try_catch (old <- readFileSync p ;; ret (header +:+ old)) (ret header) E w)
     = Returned match old with
                | Some content => header +:+ content
                | None => header
                end.
Proof.
  unfold try_catch, bind, readFileSync.
  destruct (Fs.lookup (fs w) (Path.resolve (cwd w) p)) as [[content | entries] |];
    simpl; auto.
Qed.

Lemma publish_returned_readme E w pkg b msg lg tok :
  snapshot pkg = true ->
  out (_publishSnapshot pkg b msg lg tok E w) = Returned tt ->
  let dest := Path.join (cwd w) (Path.basename (snapshotRepo pkg)) in
  exists pre old t,
    emitted (_publishSnapshot pkg b msg lg tok E w)
    = pre ++ readme_block E pkg dest old t ++ final_steps pkg b msg dest.
Proof.
  intros Hsnap. unfold _publishSnapshot. rewrite Hsnap. cbn [negb].
  rewrite bind_log, bind_cwd. cbv zeta. cbn [cwd]. rewrite bind_log.
  unfold prepend. cbn [out emitted mkRes].
  intros Hret.
  peel Hret s4 w4 H4. peel Hret u5 w5 H5. peel Hret u6 w6 H6.
  peel Hret E7 w7 H7. peel Hret u8 w8 H8. peel Hret u9 w9 H9.
  peel Hret readme w10 H10. peel Hret u11 w11 H11. peel Hret stamp w12 H12.
  peel Hret u13 w13 H13.
  peel Hret s14 w14 H14. peel Hret s15 w15 H15. peel Hret s16 w16 H16.
  peel Hret s17 w17 H17. peel Hret s18 w18 H18.
  apply _exec_returned in H14 as ->. apply _exec_returned in H15 as ->.
  apply _exec_returned in H16 as ->. apply _exec_returned in H17 as ->.
  apply _exec_returned in H18 as ->.
  destruct (readme_step E w9
              (Path.join (Path.join (cwd w) (Path.basename (snapshotRepo pkg))) "README.md")
              (readmeHeaderFn pkg)) as [Hread Hout].
  rewrite Hout in H10. injection H10 as <-. rewrite Hread.
  apply writeFileSync_returned in H11 as ->.
  apply writeFileSync_returned in H13 as ->.
  simpl in H12. injection H12 as <-.
  cbn [emitted date_now mkRes ret].
  eexists _, _, (clock E w11).
  do 7 apply split_later. reflexivity.
Qed.

(** C8 (as stated, refuted): [core] ships a README.  After a first publish to
    an empty mirror the mirror's README is the header followed by the
    package's README; a second publish to that mirror leaves exactly the same
    README, not a new header on top of the previous content; and on a machine
    whose clock shows the same second both times the two [uniqueId] files are
    equal. *)
Lemma C8_second_publish_keeps_one_header :
  let first := Demo.publish_to Demo.empty_mirror in
  let second := Demo.publish_to (Demo.pushed first) in
  out first = Returned 0%Z /\ out second = Returned 0%Z
  /\ Demo.file_in_clone first "README.md"
     = Some (Fs.File (readmeHeaderFn Demo.core +:+ "core docs"))
  /\ Demo.file_in_clone second "README.md" = Demo.file_in_clone first "README.md"
  /\ Demo.file_in_clone second "README.md"
     <> Some (Fs.File (readmeHeaderFn Demo.core
                         +:+ (readmeHeaderFn Demo.core +:+ "core docs")))
  /\ Demo.file_in_clone second "uniqueId" = Demo.file_in_clone first "uniqueId".
Proof.
  vm_compute. split; [| split; [| split; [| split; [| split]]]];
    try reflexivity; discriminate.
Qed.

(** C8 (amended): a per-package sequence that completes has, just before its
    final steps, read [README.md] in the clone, written it back as exactly
    one header block followed by what was read (by the header alone when the
    file could not be read), read the clock, and written the string form of
    that reading to [uniqueId].  What is read is the content of the clone
    after the removal of tracked files and the copy of the build output, so
    the mirror's earlier README stays below the header only if those steps
    left it in place; the markers of two runs differ exactly when the string
    forms of their clock readings differ. *)
Theorem C8_readme_and_marker E w pkg b msg lg tok :
  snapshot pkg = true ->
  out (_publishSnapshot pkg b msg lg tok E w) = Returned tt ->
  let dest := Path.join (cwd w) (Path.basename (snapshotRepo pkg)) in
  exists pre old t,
    emitted (_publishSnapshot pkg b msg lg tok E w)
    = pre ++ readme_block E pkg dest old t ++ final_steps pkg b msg dest.
Proof. apply publish_returned_readme. Qed.

Lemma C8_readme_and_marker_witness :
  let E := Demo.machine ∅ EmptyString Demo.never (Demo.mirror_with "previous") true in
  let r := _publishSnapshot Demo.core "main" "1a2b3c4 fix: a thing" [] "tok" E
             (Demo.in_tmp false) in
  out r = Returned tt
  /\ exists pre old t,
      emitted r
      = pre ++ readme_block E Demo.core "/tmp/core-builds" old t
            ++ final_steps Demo.core "main" "1a2b3c4 fix: a thing" "/tmp/core-builds".
Proof.
  intros E r. split; [vm_compute; reflexivity |].
  apply (C8_readme_and_marker E (Demo.in_tmp false) Demo.core "main"
           "1a2b3c4 fix: a thing" [] "tok" eq_refl).
  vm_compute. reflexivity.
Defined.

(** ** Case analysis of a step, the world after it left abstract *)

Lemma bind_cases {A B} (m : M A) (k : A -> M B) E w :
  (exists a w',
      out (m E w) = Returned a
      /\ emitted (bind m k E w) = emitted (m E w) ++ emitted (k a E w')
      /\ out (bind m k E w) = out (k a E w'))
  \/ (emitted (bind m k E w) = emitted (m E w)
      /\ is_thrown (out (m E w)) /\ is_thrown (out (bind m k E w)))
  \/ (emitted (bind m k E w) = emitted (m E w)
      /\ exists c, out (m E w) = Exited c /\ out (bind m k E w) = Exited c).
Proof.
  rewrite emitted_bind, out_bind.
  destruct (out (m E w)) as [a | e | c].
  - left. eauto.
  - right. left. rewrite app_nil_r. simpl. auto.
  - right. right. rewrite app_nil_r. eauto.
Qed.

Lemma exec_then_cases {B} c args oc lg (k : string -> M B) E w :
  exists st,
    (status_ne_0 st = true
     /\ emitted (bind (_exec c args oc lg) k E w)
        = [EvSpawn c args oc st; EvLog lg Error (command_failed c args)]
     /\ is_thrown (out (bind (_exec c args oc lg) k E w)))
    \/ (status_ne_0 st = false
        /\ exists s w',
            emitted (bind (_exec c args oc lg) k E w)
            = EvSpawn c args oc st :: emitted (k s E w')
            /\ out (bind (_exec c args oc lg) k E w) = out (k s E w')).
Proof.
  exists (status (spawnSync E w c args oc).1).
  rewrite emitted_bind, out_bind, _exec_run.
  destruct (status_ne_0 (status (spawnSync E w c args oc).1)); cbn [out emitted mkRes].
  - left. simpl. auto.
  - right. split; [reflexivity |]. eauto.
Qed.

Lemma try_exec_cases c args oc lg (h : M unit) E w :
  exists st,
    (status_ne_0 st = false
     /\ emitted (try_catch (_exec c args oc lg ;; ret tt) h E w) = [EvSpawn c args oc st]
     /\ out (try_catch (_exec c args oc lg ;; ret tt) h E w) = Returned tt)
    \/ (status_ne_0 st = true
        /\ exists w',
            emitted (try_catch (_exec c args oc lg ;; ret tt) h E w)
            = EvSpawn c args oc st :: EvLog lg Error (command_failed c args)
                :: emitted (h E w')
            /\ out (try_catch (_exec c args oc lg ;; ret tt) h E w) = out (h E w')).
Proof.
  exists (status (spawnSync E w c args oc).1).
  rewrite emitted_try, out_try, emitted_bind, out_bind, _exec_run.
  destruct (status_ne_0 (status (spawnSync E w c args oc).1)); cbn [out emitted mkRes].
  - right. split; [reflexivity |]. eexists. split; reflexivity.
  - left. auto.
Qed.

Ltac no_checkout := simpl; intros; try congruence.

Lemma removal_first {B} dest lg (k : M B) E w :
  emits E (fun ev => verb_of ev <> Some "checkout")
    (try_catch (_exec "git" ["rm"; "-rf"; "./"] (Some dest) lg ;; ret tt) (ret tt) ;; k) ->
  starts_with_removal dest
    (emitted ((try_catch (_exec "git" ["rm"; "-rf"; "./"] (Some dest) lg ;; ret tt) (ret tt) ;;
               k) E w)).
Proof.
  intros Halpha. specialize (Halpha w). revert Halpha.
  rewrite emitted_bind.
  destruct (try_exec_cases "git" ["rm"; "-rf"; "./"] (Some dest) lg (ret tt) E w)
    as (st & [(_ & -> & _) | (_ & w' & -> & _)]).
  - cbn [app]. intros Halpha. apply Forall_cons in Halpha as [_ Halpha].
    exists st. eexists. split; [reflexivity | exact Halpha].
  - cbn [app]. intros Halpha. apply Forall_cons in Halpha as [_ Halpha].
    exists st. eexists. split; [reflexivity | exact Halpha].
Qed.

(** C6 (as stated, refuted): the branch ["main"] was resolved, the checkout
    fails and so does the creation of the branch; the sequence aborts with an
    exception right after the failed [checkout -b]. *)
Lemma C6_failed_creation_aborts :
  let fails args := Demo.args_are ["checkout"; "main"] args
                    || Demo.args_are ["checkout"; "-b"; "main"] args in
  let E := Demo.machine ∅ EmptyString fails Demo.empty_mirror true in
  let r := _publishSnapshot Demo.core "main" "msg" [] "tok" E (Demo.in_tmp true) in
  out r = Thrown Undefined
  /\ emitted r
     = [ EvLog [] Info ("Publishing core to repo " +:+ Js.stringify "org/core-builds" +:+ ".");
         EvLog ["publish"] Debug "Temporary directory: /tmp";
         EvSpawn "git" ["clone"; "https://tok@github.com/org/core-builds.git"] (Some "/tmp")
           (Some 0%Z);
         EvSpawn "git" ["checkout"; "main"] (Some "/tmp/core-builds") (Some 1%Z);
         EvLog ["publish"] Error (command_failed "git" ["checkout"; "main"]);
         EvSpawn "git" ["checkout"; "-b"; "main"] (Some "/tmp/core-builds") (Some 1%Z);
         EvLog ["publish"] Error (command_failed "git" ["checkout"; "-b"; "main"]) ].
Proof. vm_compute. split; reflexivity. Qed.

(** C6 (amended): with a non-empty branch, once the clone has succeeded the
    checkout of the branch is attempted; the creation ([checkout -b]) is
    attempted if and only if that checkout failed; when the checkout
    succeeded, or failed and the creation succeeded, the sequence goes on
    with the removal of tracked files and runs no further checkout; when the
    creation fails too, its failure is logged and the sequence aborts. *)
Theorem C6_checkout_or_create E w pkg b msg lg tok :
  snapshot pkg = true ->
  Js.truthy b = true ->
  let r := _publishSnapshot pkg b msg lg tok E w in
  let dest := Path.join (cwd w) (Path.basename (snapshotRepo pkg)) in
  let pl := createChild lg "publish" in
  exists st_clone rest0,
    emitted r
    = EvLog lg Info ("Publishing " +:+ name pkg +:+ " to repo "
                       +:+ Js.stringify (snapshotRepo pkg) +:+ ".")
        :: EvLog pl Debug ("Temporary directory: " +:+ cwd w)
        :: EvSpawn "git" ["clone"; clone_url tok pkg] (Some (cwd w)) st_clone
        :: rest0
    /\ if status_ne_0 st_clone
       then rest0 = [EvLog pl Error (command_failed "git" ["clone"; clone_url tok pkg])]
            /\ is_thrown (out r)
       else
         exists st rest,
           rest0 = EvSpawn "git" ["checkout"; b] (Some dest) st :: rest
           /\ if status_ne_0 st
              then
                exists st2 rest2,
                  rest = EvLog pl Error (command_failed "git" ["checkout"; b])
                           :: EvSpawn "git" ["checkout"; "-b"; b] (Some dest) st2
                           :: rest2
                  /\ if status_ne_0 st2
                     then rest2 = [EvLog pl Error
                                     (command_failed "git" ["checkout"; "-b"; b])]
                          /\ is_thrown (out r)
                     else starts_with_removal dest rest2
              else starts_with_removal dest rest.
Proof.
  intros Hsnap Hb r dest pl. subst r. unfold _publishSnapshot. rewrite Hsnap, Hb. cbn [negb].
  rewrite bind_log, bind_cwd. cbv zeta. cbn [cwd]. rewrite bind_log.
  unfold prepend. cbn [out emitted mkRes app]. fold dest. fold pl.
  match goal with |- context [bind (_exec ?c ?args ?oc ?l) ?k ?E ?w2] =>
    destruct (exec_then_cases c args oc l k E w2)
      as (st0 & [(Hst0 & -> & Hout) | (Hst0 & s & w3 & -> & ->)])
  end.
  { exists st0. eexists. split; [reflexivity |]. rewrite Hst0. auto. }
  exists st0. eexists. split; [reflexivity |]. rewrite Hst0.
  match goal with |- context [bind (try_catch ?a ?h) ?k E w3] =>
    destruct (bind_cases (try_catch a h) k E w3)
      as [(u & w4 & Htry & -> & ->) | [(-> & Hthrown & Hout) | (-> & c & Htry & _)]];
    destruct (try_exec_cases "git" ["checkout"; b] (Some dest) pl h E w3)
      as (st & [(Hst & Hem & Hto) | (Hst & w5 & Hem & Hto)])
  end.
  all: rewrite Hem; cbn [app]; exists st; eexists; (split; [reflexivity |]); rewrite Hst.
  all: try (rewrite Hto in *; simpl in *; first [contradiction | discriminate]).
  - destruct u. apply removal_first. emits_walk no_checkout.
  - rewrite Hto in Htry.
    match type of Htry with out (bind (_exec ?c ?args ?oc ?l) ?k E w5) = _ =>
      destruct (exec_then_cases c args oc l k E w5)
        as (st2 & [(Hst2 & Hem2 & Hout2) | (Hst2 & s2 & w6 & Hem2 & Hout2)])
    end.
    { rewrite Htry in Hout2. contradiction. }
    rewrite Hem2. cbn [emitted ret app]. exists st2. eexists. split; [reflexivity |].
    rewrite Hst2. destruct u. apply removal_first. emits_walk no_checkout.
  - rewrite Hto in Hthrown.
    match type of Hthrown with is_thrown (out (bind (_exec ?c ?args ?oc ?l) ?k E w5)) =>
      destruct (exec_then_cases c args oc l k E w5)
        as (st2 & [(Hst2 & Hem2 & Hout2) | (Hst2 & s2 & w6 & Hem2 & Hout2)])
    end.
    2: { rewrite Hout2 in Hthrown. simpl in Hthrown. contradiction. }
    rewrite Hem2. exists st2. eexists. split; [reflexivity |]. rewrite Hst2. auto.
  - rewrite Hto in Htry.
    match type of Htry with out (bind (_exec ?c ?args ?oc ?l) ?k E w5) = _ =>
      destruct (exec_then_cases c args oc l k E w5)
        as (st2 & [(Hst2 & Hem2 & Hout2) | (Hst2 & s2 & w6 & Hem2 & Hout2)])
    end.
    { rewrite Htry in Hout2. contradiction. }
    rewrite Hout2 in Htry. discriminate Htry.
Qed.

Lemma C6_checkout_or_create_witness :
  let fails args := Demo.args_are ["checkout"; "main"] args in
  let E := Demo.machine ∅ EmptyString fails Demo.empty_mirror true in
  let r := _publishSnapshot Demo.core "main" "msg" [] "tok" E (Demo.in_tmp true) in
  out r = Returned tt
  /\ exists st_clone rest0,
      emitted r
      = EvLog [] Info ("Publishing core to repo " +:+ Js.stringify "org/core-builds" +:+ ".")
          :: EvLog ["publish"] Debug "Temporary directory: /tmp"
          :: EvSpawn "git" ["clone"; "https://tok@github.com/org/core-builds.git"]
               (Some "/tmp") st_clone
          :: rest0.
Proof.
  intros fails E r. split; [vm_compute; reflexivity |].
  destruct (C6_checkout_or_create E (Demo.in_tmp true) Demo.core "main" "msg" [] "tok"
              eq_refl eq_refl) as (st & rest0 & Hem & _).
  exists st, rest0. exact Hem.
Defined.

(** ** The failure discipline *)

Lemma split_mid {A} (e1 e2 pre : list A) ev post :
  e1 ++ e2 = pre ++ ev :: post ->
  (exists l, e1 = pre ++ ev :: l /\ post = l ++ e2)
  \/ (exists l, pre = e1 ++ l /\ e2 = l ++ ev :: post).
Proof.
  revert pre. induction e1 as [| a e1 IH]; intros pre H.
  - right. exists pre. auto.
  - destruct pre as [| a' pre]; simpl in H.
    + injection H as -> <-. left. exists e1. auto.
    + injection H as -> H. destruct (IH pre H) as [(l & -> & ->) | (l & -> & ->)].
      * left. exists l. auto.
      * right. exists l. auto.
Qed.

Lemma unique_occurrence {A} (Q : A -> Prop) l1 x l2 pre y post :
  l1 ++ x :: l2 = pre ++ y :: post ->
  Forall (fun a => ~ Q a) l1 -> Forall (fun a => ~ Q a) l2 -> Q y ->
  pre = l1 /\ y = x /\ post = l2.
Proof.
  revert pre. induction l1 as [| a l1 IH]; intros pre H H1 H2 Hy.
  - destruct pre as [| a' pre]; simpl in H.
    + injection H as -> ->. auto.
    + injection H as -> ->. apply Forall_app in H2 as [_ H2].
      apply Forall_cons in H2 as [H2 _]. contradiction.
  - apply Forall_cons in H1 as [Ha H1].
    destruct pre as [| a' pre]; simpl in H.
    + injection H as -> _. contradiction.
    + injection H as -> H. destruct (IH pre H H1 H2 Hy) as (-> & -> & ->). auto.
Qed.

Lemma absent {A} (Q : A -> Prop) l pre y post :
  Forall (fun a => ~ Q a) l -> l = pre ++ y :: post -> Q y -> False.
Proof.
  intros H -> Hy. apply Forall_app in H as [_ H].
  apply Forall_cons in H as [H _]. contradiction.
Qed.

Lemma failure_logged_more ev l l' : failure_logged ev l -> failure_logged ev (l ++ l').
Proof.
  destruct ev; simpl; auto.
  intros H Hst. destruct (H Hst) as (lg & post' & ->). exists lg, (post' ++ l'). reflexivity.
Qed.

Section Stops.
Context (E : Env) (tol : list string -> Prop).

(** A run without any failure keeps the discipline. *)
Lemma fail_stop_quiet {A} (r : Res A) :
  Forall (fun ev => ~ is_failure ev) (emitted r) -> fail_stop tol r.
Proof.
  intros H pre ev post Hem. rewrite Hem in H.
  apply Forall_app in H as [_ H]. apply Forall_cons in H as [H _].
  split.
  - destruct ev; simpl; auto. intros Hst. simpl in H. contradiction.
  - intros Hf. exfalso. apply H. destruct ev; simpl in *; tauto.
Qed.

Lemma stops_quiet {A} (m : M A) :
  emits E (fun ev => ~ is_failure ev) m -> stops E tol m.
Proof. intros H w. apply fail_stop_quiet, H. Qed.

Lemma stops_bind {A B} (m : M A) (k : A -> M B) :
  stops E tol m -> (forall a, stops E tol (k a)) -> stops E tol (bind m k).
Proof.
  intros Hm Hk w pre ev post Hem.
  rewrite emitted_bind in Hem. rewrite out_bind.
  destruct (out (m E w)) as [a | e | c] eqn:Hout.
  - apply split_mid in Hem as [(l & Hem & ->) | (l & -> & Hem)].
    + destruct (Hm w pre ev l Hem) as [Hlog Hfatal]. split.
      * apply failure_logged_more, Hlog.
      * intros Hf. destruct (Hfatal Hf) as [_ Hthrown].
        rewrite Hout in Hthrown. contradiction.
    + apply (Hk a _ l ev post Hem).
  - rewrite app_nil_r in Hem. destruct (Hm w pre ev post Hem) as [Hlog Hfatal].
    split; [exact Hlog |]. intros Hf. split; [apply Hfatal, Hf | exact I].
  - rewrite app_nil_r in Hem. destruct (Hm w pre ev post Hem) as [Hlog Hfatal].
    split; [exact Hlog |]. intros Hf. destruct (Hfatal Hf) as [_ Hthrown].
    rewrite Hout in Hthrown. contradiction.
Qed.

Lemma stops_ask {B} (k : Env -> M B) : stops E tol (k E) -> stops E tol (bind ask k).
Proof. intros Hk w. rewrite bind_ask. apply Hk. Qed.

(** A [try] whose body can only fail in tolerated ways. *)
Lemma stops_try {A} (m h : M A) :
  stops E tol m -> emits E (fun ev => ~ fatal tol ev) m -> stops E tol h ->
  stops E tol (try_catch m h).
Proof.
  intros Hm Hsafe Hh w pre ev post Hem.
  rewrite emitted_try in Hem. rewrite out_try.
  destruct (out (m E w)) as [a | e | c] eqn:Hout.
  - rewrite app_nil_r in Hem. destruct (Hm w pre ev post Hem) as [Hlog Hfatal].
    split; [exact Hlog |]. rewrite Hout in Hfatal. exact Hfatal.
  - apply split_mid in Hem as [(l & Hem & ->) | (l & -> & Hem)].
    + destruct (Hm w pre ev l Hem) as [Hlog _]. split.
      * apply failure_logged_more, Hlog.
      * intros Hf. exfalso. eapply (absent (fatal tol)); [apply (Hsafe w) | exact Hem | exact Hf].
    + apply (Hh _ l ev post Hem).
  - rewrite app_nil_r in Hem. destruct (Hm w pre ev post Hem) as [Hlog Hfatal].
    split; [exact Hlog |]. rewrite Hout in Hfatal. exact Hfatal.
Qed.

Lemma stops_forEach {A} (l : list A) (body : A -> M unit) :
  (forall x, stops E tol (body x)) -> stops E tol (forEach l body).
Proof.
  intros H. induction l as [| x l IH]; simpl.
  - apply stops_quiet. apply emits_ret.
  - apply stops_bind; [apply H | intros _; exact IH].
Qed.

(** A step that emits one event, and throws when that event is a failure. *)
Lemma fail_stop_single {A} (r : Res A) ev :
  emitted r = [ev] -> failure_logged ev [] -> (fatal tol ev -> is_thrown (out r)) ->
  (forall c args oc st, ev <> EvSpawn c args oc st) ->
  fail_stop tol r.
Proof.
  intros Hem Hlog Hf Hns pre ev' post Heq. rewrite Hem in Heq.
  destruct pre as [| a pre]; simpl in Heq.
  - injection Heq as <- <-. split; [exact Hlog |]. intros H. split; [| auto].
    destruct ev; simpl; auto. exfalso. eapply Hns. reflexivity.
  - injection Heq as _ Heq. destruct pre; discriminate Heq.
Qed.

Lemma stops_readdirSync p : stops E tol (readdirSync p).
Proof.
  intros w. unfold readdirSync.
  destruct (Fs.lookup (fs w) (Path.resolve (cwd w) p)) as [[c | es] |].
  all: eapply fail_stop_single; [reflexivity | exact I | simpl; tauto | discriminate].
Qed.

Lemma stops_statSync p : stops E tol (statSync_isDirectory p).
Proof.
  intros w. unfold statSync_isDirectory.
  destruct (Fs.lookup (fs w) (Path.resolve (cwd w) p)) as [[c | es] |].
  all: eapply fail_stop_single; [reflexivity | exact I | simpl; tauto | discriminate].
Qed.

Lemma stops_mkdirSync p : stops E tol (mkdirSync p).
Proof.
  intros w. unfold mkdirSync. repeat case_match.
  all: eapply fail_stop_single; [reflexivity | exact I | simpl; tauto | discriminate].
Qed.

Lemma stops_writeFileSync p c : stops E tol (writeFileSync p c).
Proof.
  intros w. unfold writeFileSync. repeat case_match.
  all: eapply fail_stop_single; [reflexivity | exact I | simpl; tauto | discriminate].
Qed.

Lemma stops_exec c args oc lg : stops E tol (_exec c args oc lg).
Proof.
  intros w pre ev post Hem. rewrite _exec_run in *.
  destruct (status_ne_0 (status (spawnSync E w c args oc).1)) eqn:Hst;
    cbn [emitted out mkRes] in *.
  - destruct pre as [| a [| a' pre]]; simpl in Hem.
    + injection Hem as <- <-. simpl. split; [eauto |]. intros _. split; [eauto | exact I].
    + injection Hem as _ <- <-. simpl. tauto.
    + injection Hem as _ _ Hem. destruct pre; discriminate Hem.
  - destruct pre as [| a pre]; simpl in Hem.
    + injection Hem as <- <-. simpl. split; [congruence |]. intros [H _]. congruence.
    + injection Hem as _ Hem. destruct pre; discriminate Hem.
Qed.
End Stops.

Ltac quiet_failure := simpl; tauto.

Ltac safe_event :=
  simpl; try tauto;
  try (intros [_ Hnot]; apply Hnot; unfold tolerated; auto).

Lemma stops_copy E tol depth from to : stops E tol (_copy depth from to).
Proof.
  revert from to. induction depth as [| d IH]; intros from to; simpl.
  all: apply stops_bind; [apply stops_readdirSync |].
  all: intros names; apply stops_forEach; intros x.
  all: apply stops_bind; [apply stops_statSync |].
  all: intros [|].
  all: try (apply stops_bind;
            [apply stops_quiet, emits_readFileSync; intros; quiet_failure
            | intros c; apply stops_writeFileSync]).
  all: apply stops_bind;
    [apply stops_quiet, emits_existsSync; intros; quiet_failure |].
  all: intros present; apply stops_bind;
    [destruct (negb present);
     [apply stops_mkdirSync | apply stops_quiet, emits_ret] |].
  - intros _. apply stops_quiet, emits_throw.
  - intros _. apply IH.
Qed.

(** Walks a program along its structure to show that it keeps the failure
    discipline. *)
Ltac stops_walk :=
  repeat (cbv zeta;
    lazymatch goal with
    | |- stops _ _ (bind ask _) => apply stops_ask
    | |- stops _ _ (bind _ _) => apply stops_bind; [| intros ?]
    | |- stops _ _ (try_catch _ _) => apply stops_try; [| emits_walk safe_event |]
    | |- stops _ _ (_exec _ _ _ _) => apply stops_exec
    | |- stops _ _ (_copy _ _ _) => apply stops_copy
    | |- stops _ _ (writeFileSync _ _) => apply stops_writeFileSync
    | |- stops _ _ (forEach _ _) => apply stops_forEach; intros ?
    | |- stops _ _ (if ?b then _ else _) => destruct b eqn:?
    | |- stops _ _ (match ?x with _ => _ end) => destruct x eqn:?
    | |- stops _ _ (_publishSnapshot _ _ _ _ _) => fail
    | |- stops _ _ (publish_all _ _ _ _ _ _ _) => fail
    | |- stops _ _ _ => apply stops_quiet; emits_walk quiet_failure
    end).

Lemma publish_stops E pkg b msg lg tok :
  stops E (tolerated b) (_publishSnapshot pkg b msg lg tok).
Proof.
  unfold _publishSnapshot. stops_walk.
Qed.

Lemma publish_all_stops E root b msg lg tok table keys :
  stops E (tolerated b) (publish_all root b msg lg tok table keys).
Proof.
  unfold publish_all. stops_walk. apply publish_stops.
Qed.

Lemma snapshots_stops E opts lg :
  stops E (tolerated (resolve_branch opts (env E))) (snapshots opts lg).
Proof.
  unfold snapshots. stops_walk. apply publish_all_stops.
Qed.

(** [_copy] begins by listing its source directory. *)
Lemma copy_starts_with_readdir depth from to E w :
  exists res rest, emitted (_copy depth from to E w) = EvReaddir from res :: rest.
Proof.
  destruct depth; simpl; rewrite emitted_bind; unfold readdirSync.
  all: destruct (Fs.lookup (fs w) (Path.resolve (cwd w) from)) as [[c | es] |];
    cbn [emitted out mkRes app]; eauto.
Qed.

(** A failure of the removal of tracked files is caught: whatever its exit
    status, the copy of the build output is what comes next. *)
Lemma removal_tolerated E w pkg b msg lg tok :
  snapshot pkg = true ->
  let r := _publishSnapshot pkg b msg lg tok E w in
  let dest := Path.join (cwd w) (Path.basename (snapshotRepo pkg)) in
  let pl := createChild lg "publish" in
  forall pre st post,
    emitted r = pre ++ EvSpawn "git" ["rm"; "-rf"; "./"] (Some dest) st :: post ->
    exists res post',
      post = (if status_ne_0 st
              then [EvLog pl Error (command_failed "git" ["rm"; "-rf"; "./"])]
              else [])
             ++ EvReaddir (dist pkg) res :: post'.
Proof.
  intros Hsnap r dest pl pre st post. subst r.
  unfold _publishSnapshot. rewrite Hsnap. cbn [negb].
  rewrite bind_log, bind_cwd. cbv zeta. cbn [cwd]. rewrite bind_log.
  unfold prepend. cbn [out emitted mkRes app]. fold dest. fold pl.
  set (Q := fun ev => verb_of ev = Some "rm").
  match goal with |- context [bind (_exec ?c ?args ?oc ?l) ?k ?E ?w2] =>
    destruct (exec_then_cases c args oc l k E w2)
      as (st0 & [(Hst0 & -> & _) | (Hst0 & s & w3 & -> & _)])
  end.
  { intros Hem. exfalso. eapply (absent Q); [| exact Hem | reflexivity].
    repeat constructor; unfold Q; no_checkout. }
  match goal with |- context [emitted (bind ?co ?k E w3)] =>
    assert (Forall (fun ev => ~ Q ev) (emitted (co E w3))) as Hco
      by (destruct (Js.truthy b); by_alphabet ltac:(unfold Q; no_checkout));
    destruct (bind_cases co k E w3)
      as [(u & w4 & _ & -> & _) | [(-> & _) | (-> & _)]]
  end.
  2, 3: intros Hem; exfalso; eapply (absent Q); [| exact Hem | reflexivity];
        repeat (constructor; [unfold Q; no_checkout |]); exact Hco.
  rewrite emitted_bind.
  match goal with |- context [try_catch ?a ?h E w4] =>
    destruct (try_exec_cases "git" ["rm"; "-rf"; "./"] (Some dest) pl h E w4)
      as (st1 & [(Hst1 & -> & ->) | (Hst1 & w5 & -> & ->)])
  end.
  all: cbn [out emitted ret mkRes app].
  all: match goal with |- context [emitted (bind ask ?k3 ?E0 ?w6)] =>
         assert (Forall (fun ev => ~ Q ev) (emitted (bind ask k3 E0 w6))) as Hrest
           by (by_alphabet ltac:(unfold Q; no_checkout));
         revert Hrest
       end.
  all: rewrite bind_ask, emitted_bind.
  all: match goal with |- context [emitted (_copy ?d ?f ?t ?E0 ?w6)] =>
         destruct (copy_starts_with_readdir d f t E0 w6) as (res & rest & ->)
       end.
  all: cbn [app].
  all: intros Hrest Hem.
  all: match type of Hem with
       | ?a :: ?b :: ?c :: ?co ++ ?x :: ?l2 = _ =>
           change (a :: b :: c :: co ++ x :: l2) with ((a :: b :: c :: co) ++ x :: l2) in Hem
       end.
  all: apply (unique_occurrence Q) in Hem as (_ & Heq & ->);
    [ injection Heq as ->; rewrite Hst1; cbn [app]; eauto
    | repeat (constructor; [unfold Q; no_checkout |]); exact Hco
    | try exact Hrest
    | reflexivity ].
  constructor; [unfold Q; no_checkout | exact Hrest].
Qed.

(** C4 (as stated, refuted): the built output of the package is missing, so
    the copy step fails; the sequence raises at once, but no failed command
    is logged: the trace holds no error log at all and ends with the failed
    directory listing. *)
Lemma C4_failed_copy_is_not_logged :
  let pkg := {| name := "core"; dist := "/dist/missing"; snapshot := true;
                snapshotRepo := "org/core-builds"; snapshotHash := "abc123" |} in
  let E := Demo.machine ∅ EmptyString Demo.never Demo.empty_mirror true in
  let r := _publishSnapshot pkg "main" "msg" [] "tok" E (Demo.in_tmp true) in
  out r = Thrown (SystemError "ENOENT")
  /\ List.last (emitted r) (EvDate 0) = EvReaddir "/dist/missing" None
  /\ forallb (fun ev => match ev with EvLog _ Error _ => false | _ => true end) (emitted r)
     = true.
Proof. vm_compute. split; [| split]; reflexivity. Qed.

(** C4 (amended): a failure of the removal of tracked files is caught and the
    copy of the build output starts as if it had succeeded.  Any git command
    that exits with a status other than 0 is followed by the log of the
    command and its arguments; unless it is that removal or the first
    checkout of the branch, the log is the last thing done, by the sequence
    and by the whole run, which end with an exception, so the remaining
    packages are not processed.  A failed step of the file system in the copy
    or in the writes of README and uniqueId (listing, stat, mkdir, write)
    ends the sequence and the run with an exception in the same way, but
    nothing is logged for it. *)
Theorem C4_failure_discipline E w pkg b msg lg tok :
  snapshot pkg = true ->
  let r := _publishSnapshot pkg b msg lg tok E w in
  let dest := Path.join (cwd w) (Path.basename (snapshotRepo pkg)) in
  let pl := createChild lg "publish" in
  (forall pre st post,
      emitted r = pre ++ EvSpawn "git" ["rm"; "-rf"; "./"] (Some dest) st :: post ->
      exists res post',
        post = (if status_ne_0 st
                then [EvLog pl Error (command_failed "git" ["rm"; "-rf"; "./"])]
                else [])
               ++ EvReaddir (dist pkg) res :: post')
  /\ fail_stop (tolerated b) r
  /\ (forall opts, fail_stop (tolerated (resolve_branch opts (env E)))
                     (snapshots opts lg E w)).
Proof.
  intros Hsnap r dest pl. split; [| split].
  - apply removal_tolerated, Hsnap.
  - apply publish_stops.
  - intros opts. apply snapshots_stops.
Qed.

Lemma C4_failure_discipline_witness :
  let fails args := Demo.args_are ["rm"; "-rf"; "./"] args
                    || Demo.args_are ["add"; "."] args in
  let E := Demo.machine ∅ EmptyString fails Demo.empty_mirror true in
  let r := _publishSnapshot Demo.core "main" "msg" [] "tok" E (Demo.in_tmp true) in
  fail_stop (tolerated "main") r
  /\ out r = Thrown Undefined
  /\ List.last (emitted r) (EvDate 0)
     = EvLog ["publish"] Error (command_failed "git" ["add"; "."]).
Proof.
  intros fails E r. split; [| split; vm_compute; reflexivity].
  apply (proj1 (proj2 (C4_failure_discipline E (Demo.in_tmp true) Demo.core "main" "msg"
                         [] "tok" eq_refl))).
Defined.

(** * Further properties of the script *)

(** ** [_exec] *)

(** [_exec] returns exactly when the child exits with status 0, and then
    returns its standard output after the single spawn event; in every other
    case, a child that could not be started or was killed ([status] null)
    included, it logs the command line once and throws the error reported by
    [spawnSync], or [undefined] when there is none.  The file system is as
    the child left it in both cases. *)
Theorem exec_outcome c args oc lg E w :
  let child := (spawnSync E w c args oc).1 in
  let r := _exec c args oc lg E w in
  fs_after r = (spawnSync E w c args oc).2
  /\ (forall s, out r = Returned s <-> status child = Some 0%Z /\ s = stdout child)
  /\ (status child = Some 0%Z -> emitted r = [EvSpawn c args oc (Some 0%Z)])
  /\ (status child <> Some 0%Z ->
      emitted r = [EvSpawn c args oc (status child); EvLog lg Error (command_failed c args)]
      /\ out r = Thrown (default Undefined (error child))).
Proof.
  cbv zeta. rewrite _exec_run.
  destruct (status_ne_0 (status (spawnSync E w c args oc).1)) eqn:Hst;
    cbn [out emitted fs_after mkRes].
  - assert (status (spawnSync E w c args oc).1 <> Some 0%Z) as Hne
        by (intros Heq; rewrite Heq in Hst; discriminate Hst).
    split; [reflexivity |]. split; [| split].
    + intros s. split; [discriminate | intros [H _]; contradiction].
    + intros H. contradiction.
    + intros _. split; reflexivity.
  - apply status_ne_0_false in Hst. rewrite Hst.
    split; [reflexivity |]. split; [| split].
    + intros s. split; [intros H; injection H as <-; auto | intros [_ ->]; reflexivity].
    + reflexivity.
    + intros H. contradiction.
Qed.

Lemma exec_outcome_witness :
  let killed (w : World) (c : string) (args : list string) (oc : option string) :=
    ({| status := None; error := Some (ExternalError "SIGKILL"); stdout := EmptyString |},
     fs w) in
  let E := {| env := ∅; tmpdir := "/tmp"; packages := []; stack_depth := 0;
              spawnSync := killed;
              execSync := Demo.shell EmptyString; mkdtempSync := Demo.tempdir;
              clock := Demo.time true; date_string := Demo.show_date;
              createTemporaryProject := fun w _ => Demo.returns "/tmp/project" w;
              build := fun w _ _ => Demo.returns tt w;
              jsonHelp := fun w _ _ => Demo.returns tt w |} in
  out (_exec "git" ["push"] None [] E (Demo.start true)) = Thrown (ExternalError "SIGKILL").
Proof.
  intros killed E.
  apply (proj2 (proj2 (proj2 (exec_outcome "git" ["push"] None [] E (Demo.start true))))).
  discriminate.
Defined.

(** ** [_copy] *)

(** [_copy] does nothing but calls to the [fs] module: it starts no process
    and logs nothing, whatever the file system holds and however deep the
    stack may go. *)
Theorem copy_only_touches_fs E depth from to w :
  Forall is_fs_event (emitted (_copy depth from to E w)).
Proof. apply emits_copy. auto. Qed.

(** A source that is not a directory: [_copy] throws after the failed
    listing and changes nothing.  An empty source directory: [_copy] returns
    after the listing and changes nothing. *)
Theorem copy_edge_cases E depth from to w :
  ((forall entries, Fs.lookup (fs w) (Path.resolve (cwd w) from) <> Some (Fs.Dir entries)) ->
   emitted (_copy depth from to E w) = [EvReaddir from None]
   /\ is_thrown (out (_copy depth from to E w))
   /\ fs_after (_copy depth from to E w) = fs w)
  /\ (Fs.lookup (fs w) (Path.resolve (cwd w) from) = Some (Fs.Dir []) ->
      _copy depth from to E w = mkRes [EvReaddir from (Some [])] (fs w) (cwd w) (Returned tt)).
Proof.
  split.
  - intros Hnot. destruct depth; simpl.
    all: rewrite emitted_bind, out_bind, fs_after_bind; unfold readdirSync.
    all: destruct (Fs.lookup (fs w) (Path.resolve (cwd w) from)) as [[c | es] |];
      cbn [emitted out fs_after mkRes app].
    all: try (split; [reflexivity | split; [exact I | reflexivity]]).
    all: exfalso; eapply Hnot; reflexivity.
  - intros Hdir. destruct depth; simpl.
    all: unfold bind, readdirSync; rewrite Hdir; reflexivity.
Qed.

Lemma copy_edge_cases_witness :
  let E := Demo.machine ∅ EmptyString Demo.never Demo.empty_mirror true in
  emitted (_copy 8 "/dist/missing" "/tmp" E (Demo.start true)) = [EvReaddir "/dist/missing" None]
  /\ out (_copy 8 "/tmp" "/dist" E (Demo.start true)) = Returned tt.
Proof.
  intros E. split.
  - assert (forall entries,
               Fs.lookup (fs (Demo.start true))
                 (Path.resolve (cwd (Demo.start true)) "/dist/missing")
               <> Some (Fs.Dir entries)) as Hnot
        by (intros entries; vm_compute; discriminate).
    exact (proj1 (proj1 (copy_edge_cases E 8 "/dist/missing" "/tmp" (Demo.start true))
                    Hnot)).
  - rewrite (proj2 (copy_edge_cases E 8 "/tmp" "/dist" (Demo.start true)) eq_refl).
    reflexivity.
Defined.

Lemma preceded_app T N e1 e2 :
  preceded T N e1 -> preceded T N e2 -> preceded T N (e1 ++ e2).
Proof.
  intros H1 H2 pre ev post Heq HT.
  apply split_mid in Heq as [(l & Heq & _) | (l & -> & Heq)].
  - apply (H1 pre ev l Heq HT).
  - destruct (H2 l ev post Heq HT) as (pre' & prev & -> & HN).
    exists (e1 ++ pre'), prev. rewrite app_assoc. auto.
Qed.

Lemma preceded_none T N evs : Forall (fun ev => ~ T ev) evs -> preceded T N evs.
Proof.
  intros H pre ev post Heq HT. exfalso. eapply (absent T); eauto.
Qed.

Lemma preceded_pair T N prev ev :
  ~ T prev -> N prev ev -> preceded T N [prev; ev].
Proof.
  intros Hprev HN pre ev' post Heq HT.
  destruct pre as [| a [| a' pre]]; simpl in Heq.
  - injection Heq as <- _. contradiction.
  - injection Heq as <- <- _. exists [], prev. auto.
  - injection Heq as _ _ Heq. destruct pre; discriminate Heq.
Qed.

Section Follows.
Context (E : Env) (T : event -> Prop) (N : event -> event -> Prop).

Lemma follows_quiet {A} (m : M A) : emits E (fun ev => ~ T ev) m -> follows E T N m.
Proof. intros H w. apply preceded_none, H. Qed.

Lemma follows_bind {A B} (m : M A) (k : A -> M B) :
  follows E T N m -> (forall a, follows E T N (k a)) -> follows E T N (bind m k).
Proof.
  intros Hm Hk w. rewrite emitted_bind. apply preceded_app; [apply Hm |].
  destruct (out (m E w)); [apply Hk | |]; apply preceded_none; constructor.
Qed.

Lemma follows_forEach {A} (l : list A) (body : A -> M unit) :
  (forall x, follows E T N (body x)) -> follows E T N (forEach l body).
Proof.
  intros H. induction l as [| x l IH]; simpl.
  - apply follows_quiet, emits_ret.
  - apply follows_bind; [apply H | intros _; exact IH].
Qed.
End Follows.

Lemma writeFileSync_emitted E w p c :
  exists ok, emitted (writeFileSync p c E w) = [EvWriteFile p c ok].
Proof. unfold writeFileSync. repeat case_match; simpl; eauto. Qed.

Lemma mkdirSync_emitted E w p : exists ok, emitted (mkdirSync p E w) = [EvMkdir p ok].
Proof. unfold mkdirSync. repeat case_match; simpl; eauto. Qed.

Lemma preceded_weaken T (N N' : event -> event -> Prop) evs :
  (forall prev ev, N prev ev -> N' prev ev) -> preceded T N evs -> preceded T N' evs.
Proof.
  intros HN H pre ev post Heq HT.
  destruct (H pre ev post Heq HT) as (pre' & prev & -> & Hrel). eauto.
Qed.

(** The file branch of [_copy]: a write comes right after the read of the
    same entry, with the content read. *)
Lemma read_write_follows E from to entry :
  follows E is_write (read_then_written from to)
    (content <- readFileSync (Path.join from entry) ;;
     writeFileSync (Path.join to entry) content).
Proof.
  intros w. rewrite emitted_bind. unfold readFileSync.
  destruct (Fs.lookup (fs w) (Path.resolve (cwd w) (Path.join from entry)))
    as [[c | es] |]; cbn [emitted out mkRes app].
  2, 3: apply preceded_none; repeat constructor; simpl; tauto.
  match goal with |- context [writeFileSync ?p ?c E ?w'] =>
    destruct (writeFileSync_emitted E w' p c) as (ok & ->) end.
  apply preceded_pair; [simpl; tauto |].
  exists [entry], c, ok. split; [discriminate | auto].
Qed.

(** The directory branch of [_copy]: a [mkdir] comes right after the test
    that found the directory missing. *)
Lemma guarded_mkdir_follows {B} E p (k : M B) :
  follows E is_mkdir found_missing k ->
  follows E is_mkdir found_missing
    (present <- existsSync p ;; (if negb present then mkdirSync p else ret tt) ;; k).
Proof.
  intros Hk w. rewrite emitted_bind. unfold existsSync at 1 2.
  cbn [emitted out mkRes].
  destruct (Fs.lookup (fs w) (Path.resolve (cwd w) p)) eqn:Hlook; cbn [negb].
  - apply preceded_app; [apply preceded_none; repeat constructor; simpl; tauto |].
    rewrite bind_ret. apply Hk.
  - rewrite emitted_bind.
    match goal with |- context [mkdirSync p E ?w'] =>
      destruct (mkdirSync_emitted E w' p) as (ok & ->) end.
    change ([EvExists p false] ++ [EvMkdir p ok] ++ ?x)
      with ([EvExists p false; EvMkdir p ok] ++ x).
    apply preceded_app.
    + apply preceded_pair; [simpl; tauto |]. exists p, ok. auto.
    + match goal with |- context [match ?o with _ => _ end] => destruct o end;
        [apply Hk | |]; apply preceded_none; constructor.
Qed.

(** Whatever [_copy] writes it has just read, and it writes it to the same
    place: every write comes right after the successful read of a file
    reached from the source directory through some chain of entries, goes to
    the path reached from the destination through the same chain, and carries
    the content that was read. *)
Theorem copy_writes_what_it_read E depth from to :
  follows E is_write (read_then_written from to) (_copy depth from to).
Proof.
  revert from to. induction depth as [| d IH]; intros from to; simpl.
  all: apply follows_bind;
    [apply follows_quiet, emits_readdirSync; intros; simpl; tauto |].
  all: intros names; apply follows_forEach; intros x.
  all: apply follows_bind;
    [apply follows_quiet, emits_statSync; intros; simpl; tauto |].
  all: intros [|]; [| apply read_write_follows].
  all: apply follows_bind;
    [apply follows_quiet, emits_existsSync; intros; simpl; tauto |].
  all: intros present; apply follows_bind;
    [destruct (negb present);
     [apply follows_quiet, emits_mkdirSync; intros; simpl; tauto
     | apply follows_quiet, emits_ret] |].
  - intros _. apply follows_quiet, emits_throw.
  - intros _ w. eapply preceded_weaken; [| apply (IH (Path.join from x) (Path.join to x) w)].
    intros prev ev (chain & content & ok & _ & -> & ->).
    exists (x :: chain), content, ok. split; [discriminate | auto].
Qed.

(** [_copy] creates a directory only where it has just found none: every
    [mkdir] comes right after the [existsSync] of the same path that
    answered false. *)
Theorem copy_creates_only_missing_directories E depth from to :
  follows E is_mkdir found_missing (_copy depth from to).
Proof.
  revert from to. induction depth as [| d IH]; intros from to; simpl.
  all: apply follows_bind;
    [apply follows_quiet, emits_readdirSync; intros; simpl; tauto |].
  all: intros names; apply follows_forEach; intros x.
  all: apply follows_bind;
    [apply follows_quiet, emits_statSync; intros; simpl; tauto |].
  all: intros [|].
  all: try (apply follows_bind;
            [apply follows_quiet, emits_readFileSync; intros; simpl; tauto
            | intros c; apply follows_quiet, emits_writeFileSync; intros; simpl; tauto]).
  all: apply guarded_mkdir_follows.
  - apply follows_quiet, emits_throw.
  - apply IH.
Qed.

(** ** The run as a whole *)

Ltac peel_out H x w' Hx :=
  apply bind_returned_in in H as (x & w' & _ & Hx & H & _).

(** A run that returns returns 0: every failure is an exception or the exit
    with code 1, never a non-zero return value. *)
Theorem snapshots_returns_only_zero E w opts lg z :
  out (snapshots opts lg E w) = Returned z -> z = 0%Z.
Proof.
  unfold snapshots. rewrite bind_ask. intros Hret.
  peel_out Hret changes w1 H1. peel_out Hret u2 w2 H2. peel_out Hret root w3 H3.
  peel_out Hret logged w4 H4. cbv zeta in Hret.
  peel_out Hret u5 w5 H5. peel_out Hret project w6 H6. peel_out Hret u7 w7 H7.
  peel_out Hret u8 w8 H8. peel_out Hret u9 w9 H9.
  destruct (negb (Js.truthy (resolve_token opts (env E)))).
  - peel_out Hret u10 w10 H10. simpl in Hret. congruence.
  - peel_out Hret u10 w10 H10. simpl in Hret. congruence.
Qed.

Lemma snapshots_returns_only_zero_witness :
  out (snapshots (Demo.with_token "tok") []
         (Demo.machine ∅ EmptyString Demo.never Demo.empty_mirror true) (Demo.start true))
  = Returned 0%Z.
Proof.
  assert (exists z, out (snapshots (Demo.with_token "tok") []
                           (Demo.machine ∅ EmptyString Demo.never Demo.empty_mirror true)
                           (Demo.start true)) = Returned z) as [z Hz]
      by (eexists; vm_compute; reflexivity).
  rewrite Hz. f_equal. exact (snapshots_returns_only_zero _ _ _ _ _ Hz).
Defined.

(** The status check at its edges: when [git status] itself cannot be run the
    run ends with that exception, having done nothing else; when it prints
    nothing the run goes on to create the temporary directory, whether or not
    [force] is set. *)
Theorem status_check_edges E w opts lg :
  (forall e f,
      execSync E w git_status_cmd = (inr e, f) ->
      snapshots opts lg E w = mkRes [EvExecSync git_status_cmd None] f (cwd w) (Thrown e))
  /\ (forall f,
        execSync E w git_status_cmd = (inl EmptyString, f) ->
        exists res rest,
          emitted (snapshots opts lg E w)
          = EvExecSync git_status_cmd (Some EmptyString)
              :: EvMkdtemp (Path.join (tmpdir E) "angular-cli-publish-") res :: rest).
Proof.
  unfold snapshots. rewrite bind_ask. split.
  - intros e f Hst. apply bind_stop_thrown. apply exec_sync_inr, Hst.
  - intros f Hst.
    rewrite (bind_step _ _ _ _ _ _ _ _ (exec_sync_inl _ _ _ _ _ Hst)).
    cbn [Js.truthy andb]. rewrite bind_ret.
    unfold prepend. cbn [emitted mkRes app].
    rewrite emitted_bind.
    match goal with |- context [mkdtemp ?p E ?w'] =>
      destruct (mkdtempSync E w' p) as [[dir | e] f'] eqn:Htmp end.
    + rewrite (mkdtemp_inl _ _ _ _ _ Htmp). cbn [emitted mkRes app]. eauto.
    + rewrite (mkdtemp_inr _ _ _ _ _ Htmp). cbn [emitted mkRes app]. eauto.
Qed.

Lemma status_check_edges_witness :
  let no_git (w : World) (cmd : string) : (string + js_error) * Fs.node :=
    (inr (ExternalError "not a git repository"), fs w) in
  let E := {| env := ∅; tmpdir := "/tmp"; packages := Demo.table; stack_depth := 8;
              spawnSync := Demo.git Demo.never Demo.empty_mirror;
              execSync := no_git; mkdtempSync := Demo.tempdir;
              clock := Demo.time true; date_string := Demo.show_date;
              createTemporaryProject := fun w _ => Demo.returns "/tmp/project" w;
              build := fun w _ _ => Demo.returns tt w;
              jsonHelp := fun w _ _ => Demo.returns tt w |} in
  out (snapshots Demo.no_options [] E (Demo.start true))
  = Thrown (ExternalError "not a git repository")
  /\ exists res rest,
      emitted (snapshots Demo.no_options []
                 (Demo.machine ∅ EmptyString Demo.never Demo.empty_mirror true)
                 (Demo.start true))
      = EvExecSync git_status_cmd (Some EmptyString)
          :: EvMkdtemp "/tmp/angular-cli-publish-" res :: rest.
Proof.
  intros no_git E. split.
  - rewrite (proj1 (status_check_edges E (Demo.start true) Demo.no_options [])
               (ExternalError "not a git repository") (Demo.disk true) eq_refl).
    reflexivity.
  - exact (proj2 (status_check_edges
                    (Demo.machine ∅ EmptyString Demo.never Demo.empty_mirror true)
                    (Demo.start true) Demo.no_options [])
             (Demo.disk true) eq_refl).
Defined.

Ltac not_setup := simpl; tauto.

Lemma publish_all_not_setup E root b msg lg tok table keys :
  emits E (fun ev => ~ is_setup_event ev) (publish_all root b msg lg tok table keys).
Proof.
  unfold publish_all, _publishSnapshot. emits_walk not_setup.
Qed.

(** A complete run with a credential is laid out in two parts: first the
    status check, the temporary directory, the query of the latest commit,
    the three global git settings (e-mail, name, push default), the staging
    project, the build and the help generation, in this order; then the
    packages, during which none of those steps is taken again. *)
Theorem credential_run_order E w opts lg z :
  resolve_token opts (env E) <> EmptyString ->
  out (snapshots opts lg E w) = Returned z ->
  exists changes root logged project rest,
    emitted (snapshots opts lg E w) = setup_trace E lg changes root logged project ++ rest
    /\ Forall (fun ev => ~ is_setup_event ev) rest.
Proof.
  intros Htok. apply truthy_nonempty in Htok.
  unfold snapshots. rewrite bind_ask, Htok. cbn [negb]. intros Hret.
  peel Hret changes w1 H1. peel Hret u2 w2 H2. peel Hret root w3 H3.
  peel Hret logged w4 H4. cbv zeta in *.
  peel Hret u5 w5 H5. peel Hret project w6 H6. peel Hret u7 w7 H7.
  peel Hret u8 w8 H8. peel Hret u9 w9 H9. peel Hret u10 w10 H10.
  apply exec_sync_returned in H1 as ->. apply mkdtemp_returned in H3 as ->.
  apply exec_sync_returned in H4 as ->.
  apply createTemporaryProject_returned in H6 as ->.
  apply build_returned in H8 as ->. apply jsonHelp_returned in H9 as ->.
  assert (emitted ((if Js.truthy changes && negb (default false (force opts))
                    then log lg Error "You cannot run snapshots with local changes.";;
                         process_exit 1%Z
                    else ret tt) E w1) = []) as ->.
  { destruct (Js.truthy changes && negb (default false (force opts)));
      [discriminate H2 | reflexivity]. }
  rewrite bind_log in H5 |- *. unfold prepend in H5 |- *. cbn [out emitted mkRes] in H5 |- *.
  peel H5 s1 v1 G1. peel H5 s2 v2 G2. peel H5 s3 v3 G3.
  apply _exec_returned in G1 as ->. apply _exec_returned in G2 as ->.
  apply _exec_returned in G3 as ->.
  cbn [emitted ret log emit app].
  exists changes, root, logged, project. eexists. split; [reflexivity |].
  apply Forall_app. split; [| constructor].
  apply (publish_all_not_setup E root (resolve_branch opts (env E)) (Js.trim logged) lg
           (resolve_token opts (env E)) (packages E) (List.map fst (packages E)) w9).
Qed.

Lemma credential_run_order_witness :
  let E := Demo.machine ∅ EmptyString Demo.never Demo.empty_mirror true in
  exists changes root logged project rest,
    emitted (snapshots (Demo.with_token "tok") [] E (Demo.start true))
    = setup_trace E [] changes root logged project ++ rest
    /\ Forall (fun ev => ~ is_setup_event ev) rest.
Proof.
  intros E.
  refine (credential_run_order E (Demo.start true) (Demo.with_token "tok") [] 0%Z _ _);
    [vm_compute; discriminate | vm_compute; reflexivity].
Defined.

(** ** What the commands of a package are given *)

Ltac other_event := simpl; try exact I; try (intros Hverb; discriminate Hverb).

Lemma append_assoc (a b c : string) : (a +:+ b) +:+ c = a +:+ (b +:+ c).
Proof.
  induction a as [| x a IH]; [reflexivity |].
  change (String x ((a +:+ b) +:+ c) = String x (a +:+ (b +:+ c))). f_equal. exact IH.
Qed.

Lemma publish_clone_of E table key pkg b msg lg tok :
  Fs.assoc key table = Some pkg -> Js.truthy tok = true ->
  emits E (clone_of tok table) (_publishSnapshot pkg b msg lg tok).
Proof.
  intros Hkey Htok. unfold _publishSnapshot.
  destruct (snapshot pkg) eqn:Hsnap; cbn [negb].
  - rewrite Htok. apply emits_bind; [apply emits_log; exact I | intros _].
    apply emits_bind; [apply emits_cwd | intros root]. cbv zeta.
    apply emits_bind; [apply emits_log; exact I | intros _].
    apply emits_bind.
    + apply emits_exec; [| exact I]. intros st. simpl. intros _.
      exists key, pkg. unfold clone_url. rewrite Htok, append_assoc. auto.
    + intros _. emits_walk other_event.
  - apply emits_log. exact I.
Qed.

(** Every clone of a run names the mirror of a package of the table whose
    [snapshot] attribute is true, through the URL that carries the resolved
    credential: [https://TOKEN@github.com/REPO.git]. *)
Theorem clones_carry_the_credential E opts lg :
  emits E (clone_of (resolve_token opts (env E)) (packages E)) (snapshots opts lg).
Proof.
  unfold snapshots. apply emits_ask.
  destruct (Js.truthy (resolve_token opts (env E))) eqn:Htok; cbn [negb].
  - emits_walk other_event. unfold publish_all. emits_walk other_event.
    eapply publish_clone_of; eassumption.
  - emits_walk other_event.
Qed.

(** Without a credential the per-package sequence never touches the signing
    configuration; with one, a sequence that completes has set
    [commit.gpgSign] to false in the clone. *)
Theorem signing_is_disabled_with_a_credential E w pkg b msg lg tok :
  (Js.truthy tok = false ->
   Forall (fun ev => verb_of ev <> Some "config")
     (emitted (_publishSnapshot pkg b msg lg tok E w)))
  /\ (Js.truthy tok = true -> snapshot pkg = true ->
      out (_publishSnapshot pkg b msg lg tok E w) = Returned tt ->
      In (EvSpawn "git" ["config"; "commit.gpgSign"; "false"]
            (Some (Path.join (cwd w) (Path.basename (snapshotRepo pkg)))) (Some 0%Z))
         (emitted (_publishSnapshot pkg b msg lg tok E w))).
Proof.
  split.
  - intros Htok. unfold _publishSnapshot. rewrite Htok.
    by_alphabet no_checkout.
  - intros Htok Hsnap. unfold _publishSnapshot. rewrite Hsnap, Htok. cbn [negb].
    rewrite bind_log, bind_cwd. cbv zeta. cbn [cwd]. rewrite bind_log.
    unfold prepend. cbn [out emitted mkRes].
    intros Hret.
    peel Hret s4 w4 H4. peel Hret u5 w5 H5. peel Hret u6 w6 H6.
    peel Hret E7 w7 H7. peel Hret u8 w8 H8. peel Hret u9 w9 H9.
    peel H9 s9 v9 G9. apply _exec_returned in G9 as ->.
    rewrite !in_app_iff. do 7 right. left. left. left. reflexivity.
Qed.

Lemma signing_is_disabled_with_a_credential_witness :
  let E := Demo.machine ∅ EmptyString Demo.never Demo.empty_mirror true in
  Forall (fun ev => verb_of ev <> Some "config")
    (emitted (_publishSnapshot Demo.core "main" "msg" [] EmptyString E (Demo.in_tmp true)))
  /\ In (EvSpawn "git" ["config"; "commit.gpgSign"; "false"] (Some "/tmp/core-builds")
           (Some 0%Z))
        (emitted (_publishSnapshot Demo.core "main" "msg" [] "tok" E (Demo.in_tmp true))).
Proof.
  intros E. split.
  - exact (proj1 (signing_is_disabled_with_a_credential E (Demo.in_tmp true) Demo.core
                    "main" "msg" [] EmptyString) eq_refl).
  - refine (proj2 (signing_is_disabled_with_a_credential E (Demo.in_tmp true) Demo.core
                     "main" "msg" [] "tok") eq_refl eq_refl _).
    vm_compute. reflexivity.
Defined.

Ltac in_place := simpl; try exact I; try reflexivity.

(** Where the commands of a package run: the clone in the working directory
    of the moment, every other git command in the directory named after the
    repository's basename under it. *)
Theorem commands_run_in_the_clone E w pkg b msg lg tok :
  Forall (runs_in (cwd w) (Path.join (cwd w) (Path.basename (snapshotRepo pkg))))
    (emitted (_publishSnapshot pkg b msg lg tok E w)).
Proof.
  unfold _publishSnapshot. destruct (negb (snapshot pkg)).
  - repeat constructor.
  - rewrite bind_log, bind_cwd. cbv zeta. cbn [cwd]. rewrite bind_log.
    unfold prepend. cbn [emitted mkRes].
    rewrite !Forall_app. repeat split; try (repeat constructor).
    by_alphabet in_place.
Qed.

(** ** A run that returns has not failed anywhere *)

Section Clean.
Context (E : Env) (ok : event -> Prop).

Lemma clean_always {A} (m : M A) : emits E ok m -> returns_clean E ok m.
Proof. intros H w a _. apply H. Qed.

Lemma clean_bind {A B} (m : M A) (k : A -> M B) :
  returns_clean E ok m -> (forall a, returns_clean E ok (k a)) ->
  returns_clean E ok (bind m k).
Proof.
  intros Hm Hk w b Hret. apply bind_returned in Hret as (a & Ha & Hb & ->).
  apply Forall_app. split; [eapply Hm, Ha | eapply Hk, Hb].
Qed.

Lemma clean_ask {B} (k : Env -> M B) :
  returns_clean E ok (k E) -> returns_clean E ok (bind ask k).
Proof. intros Hk w b. rewrite bind_ask. apply Hk. Qed.

Lemma clean_try {A} (m h : M A) :
  emits E ok m -> returns_clean E ok h -> returns_clean E ok (try_catch m h).
Proof.
  intros Hm Hh w a. rewrite emitted_try, out_try.
  destruct (out (m E w)) eqn:Hout; intros Hret.
  - rewrite app_nil_r. apply Hm.
  - apply Forall_app. split; [apply Hm | eapply Hh, Hret].
  - discriminate Hret.
Qed.

Lemma clean_forEach {A} (l : list A) (body : A -> M unit) :
  (forall x, returns_clean E ok (body x)) -> returns_clean E ok (forEach l body).
Proof.
  intros H. induction l as [| x l IH]; simpl.
  - apply clean_always, emits_ret.
  - apply clean_bind; [apply H | intros _; exact IH].
Qed.

(** A step whose trace is known once it has returned. *)
Lemma clean_shape {A} (m : M A) (shape : A -> list event) :
  (forall w a, out (m E w) = Returned a -> emitted (m E w) = shape a) ->
  (forall a, Forall ok (shape a)) ->
  returns_clean E ok m.
Proof. intros Hshape Hok w a Hret. rewrite (Hshape w a Hret). apply Hok. Qed.
End Clean.

Lemma readdirSync_returned E w p names :
  out (readdirSync p E w) = Returned names ->
  emitted (readdirSync p E w) = [EvReaddir p (Some names)].
Proof. unfold readdirSync. repeat case_match; simpl; congruence. Qed.

Lemma statSync_returned E w p isdir :
  out (statSync_isDirectory p E w) = Returned isdir ->
  emitted (statSync_isDirectory p E w) = [EvStat p (Some isdir)].
Proof. unfold statSync_isDirectory. repeat case_match; simpl; congruence. Qed.

Lemma mkdirSync_returned E w p u :
  out (mkdirSync p E w) = Returned u -> emitted (mkdirSync p E w) = [EvMkdir p true].
Proof. unfold mkdirSync. repeat case_match; simpl; congruence. Qed.

Ltac well_event :=
  unfold went_well; simpl; try tauto; try discriminate;
  try (intros _; unfold tolerated; auto).

Lemma clean_copy E b depth from to : returns_clean E (went_well b) (_copy depth from to).
Proof.
  revert from to. induction depth as [| d IH]; intros from to; simpl.
  all: apply clean_bind;
    [eapply clean_shape;
     [intros ? ? Hleaf; exact (readdirSync_returned _ _ _ _ Hleaf)
     | intros ?; repeat constructor; well_event] |].
  all: intros names; apply clean_forEach; intros x.
  all: apply clean_bind;
    [eapply clean_shape;
     [intros ? ? Hleaf; exact (statSync_returned _ _ _ _ Hleaf)
     | intros ?; repeat constructor; well_event] |].
  all: intros [|].
  all: try (apply clean_bind;
            [apply clean_always, emits_readFileSync; intros; well_event
            | intros c; eapply clean_shape;
              [intros ? ? Hleaf; exact (writeFileSync_returned _ _ _ _ _ Hleaf)
              | intros ?; repeat constructor; well_event]]).
  all: apply clean_bind;
    [apply clean_always, emits_existsSync; intros; well_event |].
  all: intros present; apply clean_bind;
    [destruct (negb present);
     [eapply clean_shape;
      [intros ? ? Hleaf; exact (mkdirSync_returned _ _ _ _ Hleaf)
      | intros ?; repeat constructor; well_event]
     | apply clean_always, emits_ret] |].
  - intros _. apply clean_always, emits_throw.
  - intros _. apply IH.
Qed.

Lemma clean_exec E b c args oc lg : returns_clean E (went_well b) (_exec c args oc lg).
Proof.
  eapply clean_shape with (shape := fun _ => [EvSpawn c args oc (Some 0%Z)]).
  - intros w s. apply _exec_returned.
  - intros _. repeat constructor. well_event.
Qed.

(** Walks a program to show that it returns only when nothing failed. *)
Ltac clean_walk :=
  repeat (cbv zeta;
    lazymatch goal with
    | |- returns_clean _ _ (bind ask _) => apply clean_ask
    | |- returns_clean _ _ (bind _ _) => apply clean_bind; [| intros ?]
    | |- returns_clean _ _ (try_catch _ _) => apply clean_try; [emits_walk well_event |]
    | |- returns_clean _ _ (_exec _ _ _ _) => apply clean_exec
    | |- returns_clean _ _ (_copy _ _ _) => apply clean_copy
    | |- returns_clean _ _ (forEach _ _) => apply clean_forEach; intros ?
    | |- returns_clean _ _ (if ?b then _ else _) => destruct b eqn:?
    | |- returns_clean _ _ (match ?x with _ => _ end) => destruct x eqn:?
    | |- returns_clean _ _ (exec_sync _) =>
        eapply clean_shape;
        [intros ? ? Hleaf; exact (exec_sync_returned _ _ _ _ Hleaf)
        | intros ?; repeat constructor; well_event]
    | |- returns_clean _ _ (mkdtemp _) =>
        eapply clean_shape;
        [intros ? ? Hleaf; exact (mkdtemp_returned _ _ _ _ Hleaf)
        | intros ?; repeat constructor; well_event]
    | |- returns_clean _ _ (chdir _) =>
        eapply clean_shape;
        [intros ? ? Hleaf; exact (chdir_returned _ _ _ _ Hleaf)
        | intros ?; repeat constructor; well_event]
    | |- returns_clean _ _ (writeFileSync _ _) =>
        eapply clean_shape;
        [intros ? ? Hleaf; exact (writeFileSync_returned _ _ _ _ _ Hleaf)
        | intros ?; repeat constructor; well_event]
    | |- returns_clean _ _ (call_createTemporaryProject _) =>
        eapply clean_shape;
        [intros ? ? Hleaf; exact (createTemporaryProject_returned _ _ _ _ Hleaf)
        | intros ?; repeat constructor; well_event]
    | |- returns_clean _ _ (call_build _ _) =>
        eapply clean_shape with (shape := fun _ => _);
        [intros ? ? Hleaf; exact (build_returned _ _ _ _ _ Hleaf)
        | intros ?; repeat constructor; well_event]
    | |- returns_clean _ _ (call_jsonHelp _ _) =>
        eapply clean_shape with (shape := fun _ => _);
        [intros ? ? Hleaf; exact (jsonHelp_returned _ _ _ _ _ Hleaf)
        | intros ?; repeat constructor; well_event]
    | |- returns_clean _ _ (_publishSnapshot _ _ _ _ _) => fail
    | |- returns_clean _ _ (publish_all _ _ _ _ _ _ _) => fail
    | |- returns_clean _ _ _ => apply clean_always; emits_walk well_event
    end).

Lemma publish_clean E pkg b msg lg tok :
  returns_clean E (went_well b) (_publishSnapshot pkg b msg lg tok).
Proof. unfold _publishSnapshot. clean_walk. Qed.

Lemma publish_all_clean E root b msg lg tok table keys :
  returns_clean E (went_well b) (publish_all root b msg lg tok table keys).
Proof. unfold publish_all. clean_walk. apply publish_clean. Qed.

(** A run that returns has not failed anywhere: every shell query, the
    temporary directory, every collaborator, every change of directory, every
    step of the file system other than the read of the README, and every git
    command has succeeded, the two tolerated commands apart (the removal of
    tracked files and the first checkout of the branch). *)
Theorem success_means_every_step_succeeded E w opts lg z :
  out (snapshots opts lg E w) = Returned z ->
  Forall (went_well (resolve_branch opts (env E))) (emitted (snapshots opts lg E w)).
Proof.
  revert w z.
  change (returns_clean E (went_well (resolve_branch opts (env E))) (snapshots opts lg)).
  unfold snapshots. clean_walk. apply publish_all_clean.
Qed.

Lemma success_means_every_step_succeeded_witness :
  let fails args := Demo.args_are ["checkout"; "main"] args in
  let E := Demo.machine ∅ EmptyString fails Demo.empty_mirror true in
  Forall (went_well "main") (emitted (snapshots (Demo.with_token "tok") [] E (Demo.start true))).
Proof.
  intros fails E.
  refine (success_means_every_step_succeeded E (Demo.start true) (Demo.with_token "tok")
            [] 0%Z _).
  vm_compute. reflexivity.
Defined.

(** ** The loop over the table *)

Lemma filter_none {A} (f : A -> bool) l :
  Forall (fun x => f x = false) l -> List.filter f l = [].
Proof.
  induction 1 as [| x l Hx _ IH]; simpl; [reflexivity |]. rewrite Hx. exact IH.
Qed.

Ltac silent := simpl; try reflexivity.

Lemma publish_announces E w pkg b msg lg tok :
  List.filter is_announcement (emitted (_publishSnapshot pkg b msg lg tok E w))
  = [announcement lg pkg]
  /\ List.filter is_chdir (emitted (_publishSnapshot pkg b msg lg tok E w)) = [].
Proof.
  unfold _publishSnapshot, announcement. destruct (snapshot pkg); cbn [negb].
  - rewrite bind_log, bind_cwd. cbv zeta. cbn [cwd]. rewrite bind_log.
    unfold prepend. cbn [emitted mkRes app List.filter is_announcement is_chdir].
    split; [f_equal |]; apply filter_none; by_alphabet silent.
  - split; reflexivity.
Qed.

(** The loop treats the keys in the order of the table, each once: when it
    completes, the announcements it logged (published or skipped) are those
    of the keys, in order, and it has changed directory to the temporary root
    exactly once per key. *)
Theorem packages_in_table_order E root b msg lg tok table keys :
  forall w,
    out (publish_all root b msg lg tok table keys E w) = Returned tt ->
    List.filter is_announcement (emitted (publish_all root b msg lg tok table keys E w))
    = announcements lg table keys
    /\ List.filter is_chdir (emitted (publish_all root b msg lg tok table keys E w))
       = List.map (fun _ => EvChdir root true) keys.
Proof.
  unfold publish_all, announcements.
  induction keys as [| k rest IH]; intros w Hret; [split; reflexivity |].
  cbn [forEach flat_map List.map] in *.
  peel Hret u w1 Hhead. peel Hhead u0 w0 Hcd.
  apply chdir_returned in Hcd as ->.
  rewrite !List.filter_app. cbn [List.filter is_announcement is_chdir app].
  destruct (IH w1 Hret) as [-> ->].
  destruct (Fs.assoc k table) as [pkg |] eqn:Hkey.
  - destruct (publish_announces E w0 pkg b msg lg tok) as [-> ->]. split; reflexivity.
  - discriminate Hhead.
Qed.

Lemma packages_in_table_order_witness :
  let E := Demo.machine ∅ EmptyString Demo.never Demo.empty_mirror true in
  List.filter is_announcement
    (emitted (publish_all "/tmp" "main" "msg" [] "tok" Demo.table ["docs"; "core"] E
                (Demo.in_tmp true)))
  = [ EvLog [] Warn "Skipping docs.";
      EvLog [] Info ("Publishing core to repo " +:+ Js.stringify "org/core-builds" +:+ ".") ].
Proof.
  intros E.
  refine (proj1 (packages_in_table_order E "/tmp" "main" "msg" [] "tok" Demo.table
                   ["docs"; "core"] (Demo.in_tmp true) _)).
  vm_compute. reflexivity.
Defined.

(** ** The credential in the log *)

(** A clone that fails ends the sequence after one error log, and that log
    spells out the clone URL with the credential in it. *)
Theorem failed_clone_logs_the_url E w pkg b msg lg tok :
  snapshot pkg = true ->
  Js.truthy tok = true ->
  status_ne_0 (status (spawnSync E
                         {| fs := fs w; cwd := cwd w;
                            hist := (hist w ++ [announcement lg pkg])
                                    ++ [EvLog (createChild lg "publish") Debug
                                          ("Temporary directory: " +:+ cwd w)] |}
                         "git" ["clone"; clone_url tok pkg] (Some (cwd w))).1) = true ->
  is_thrown (out (_publishSnapshot pkg b msg lg tok E w))
  /\ List.last (emitted (_publishSnapshot pkg b msg lg tok E w)) (EvDate 0)
     = EvLog (createChild lg "publish") Error
         ("Command failed: git " +:+ Js.stringify "clone" +:+ ", "
            +:+ Js.stringify ("https://" +:+ tok +:+ "@github.com/"
                                +:+ snapshotRepo pkg +:+ ".git")).
Proof.
  intros Hsnap Htok. unfold _publishSnapshot, announcement. rewrite Hsnap. cbn [negb].
  rewrite bind_log, bind_cwd. cbv zeta. cbn [cwd fs hist]. rewrite bind_log.
  unfold prepend. cbn [out emitted mkRes fs cwd hist].
  rewrite emitted_bind, out_bind, _exec_run.
  intros Hfail. rewrite Hfail. cbn [out emitted mkRes app List.last].
  split; [exact I |].
  unfold command_failed, clone_url. rewrite Htok, append_assoc. reflexivity.
Qed.

Lemma failed_clone_logs_the_url_witness :
  let fails args := Demo.args_are ["clone"; "https://s3cr3t@github.com/org/core-builds.git"] args in
  let E := Demo.machine ∅ EmptyString fails Demo.empty_mirror true in
  List.last (emitted (_publishSnapshot Demo.core "main" "msg" [] "s3cr3t" E (Demo.in_tmp true)))
    (EvDate 0)
  = EvLog ["publish"] Error
      ("Command failed: git " +:+ Js.stringify "clone" +:+ ", "
         +:+ Js.stringify "https://s3cr3t@github.com/org/core-builds.git").
Proof.
  intros fails E.
  exact (proj2 (failed_clone_logs_the_url E (Demo.in_tmp true) Demo.core "main" "msg" []
                  "s3cr3t" eq_refl eq_refl eq_refl)).
Defined.
